(** * ng-headless-datagrid: a shallow embedding of the grid state engine

    The development follows the TypeScript services of the library:

    - [Js]             the fragment of the JavaScript run time the services use
                       (primitive values, coercions, string and array methods);
    - [Virtualization] [VirtualizationService]  (virtualization.service.ts);
    - [Grid]           [GridStateService]       (grid-state.service.ts);
    - [Columns]        [ColumnManagementService] (column-management.service.ts);
    - [SmartFilter]    [SmartFilteringService]  (smart-filtering.service.ts).

    Angular signals are read as plain fields of a state record and every
    method is a function from state to state; a [computed] is a function of
    the state.  The reactive run time itself (memoisation of computed values,
    scheduling of effects, its checks on where a signal may be written) and
    the events of RxJS are outside the model, except for the events of the
    column manager, which are kept in a log.  Definitions come first, the
    properties after them. *)

From Stdlib Require Import ZArith QArith Qround List String Ascii Bool Lia.
From stdpp Require Import gmap strings list fin_maps pretty.

Local Open Scope Z_scope.

(* ===================================================================== *)
(** * The JavaScript fragment                                             *)
(* ===================================================================== *)

Module Js.

(** Primitive values.  Numbers are the integers (exactly representable, no
    [NaN] inside a value); for these values [===] and the [SameValueZero]
    test of [Array.prototype.includes] are both Leibniz equality. *)
Inductive JsValue : Type :=
  | VUndefined
  | VNull
  | VBool (b : bool)
  | VNum (n : Z)
  | VStr (s : string).

#[global] Instance JsValue_eq_dec : EqDecision JsValue.
Proof. solve_decision. Defined.

(** What the services take from the host and the library cannot define:
    the collation of [String.prototype.localeCompare], the numeric reading of
    a string by [Number(s)] ([None] is [NaN]), and the regular expression
    engine ([RegExp_test pattern caseSensitive s] is [None] when
    [new RegExp(pattern, flags)] throws). *)
Class JsHost : Type := {
  localeCompare : string → string → Z;
  StringToNumber : string → option Z;
  RegExp_test : string → bool → string → option bool
}.

(** [v == null] *)
Definition isNullish (v : JsValue) : bool :=
  match v with
  | VUndefined | VNull => true
  | _ => false
  end.

(** [a ?? b] *)
Definition coalesce (a b : JsValue) : JsValue :=
  if isNullish a then b else a.

(** [String(v)] *)
Definition ToString (v : JsValue) : string :=
  match v with
  | VUndefined => "undefined"
  | VNull => "null"
  | VBool true => "true"
  | VBool false => "false"
  | VNum n => pretty n
  | VStr s => s
  end.

(** [Number(v)]; [None] stands for [NaN]. *)
Definition ToNumber `{JsHost} (v : JsValue) : option Z :=
  match v with
  | VUndefined => None
  | VNull => Some 0
  | VBool b => Some (if b then 1 else 0)
  | VNum n => Some n
  | VStr s => StringToNumber s
  end.

(** [a > b] and [a < b] on the results of [Number]: false as soon as one
    side is [NaN]. *)
Definition num_gt (a b : option Z) : bool :=
  match a, b with
  | Some x, Some y => y <? x
  | _, _ => false
  end.

Definition num_lt (a b : option Z) : bool :=
  match a, b with
  | Some x, Some y => x <? y
  | _, _ => false
  end.

Definition num_ge (a b : option Z) : bool :=
  match a, b with
  | Some x, Some y => y <=? x
  | _, _ => false
  end.

Definition num_le (a b : option Z) : bool :=
  match a, b with
  | Some x, Some y => x <=? y
  | _, _ => false
  end.

(** [s.toLowerCase()], on the ASCII letters. *)
Definition lowerChar (c : ascii) : ascii :=
  let n := nat_of_ascii c in
  if ((65 <=? n) && (n <=? 90))%nat then ascii_of_nat (n + 32) else c.

Fixpoint toLowerCase (s : string) : string :=
  match s with
  | EmptyString => EmptyString
  | String c t => String (lowerChar c) (toLowerCase t)
  end.

(** [s.startsWith(p)], [s.includes(p)], [s.endsWith(p)] *)
Definition startsWith (s p : string) : bool := String.prefix p s.

Fixpoint includes (s p : string) : bool :=
  String.prefix p s ||
  match s with
  | EmptyString => false
  | String _ t => includes t p
  end.

Definition endsWith (s p : string) : bool :=
  let n := String.length s in
  let m := String.length p in
  (m <=? n)%nat && String.eqb (String.substring (n - m) m s) p.

(** [l.includes(x)] on an array of primitive values. *)
Definition array_includes (l : list JsValue) (x : JsValue) : bool :=
  existsb (λ y, bool_decide (y = x)) l.

(** [l.findIndex(p)]; [None] is the [-1] of JavaScript. *)
Fixpoint findIndex {A} (p : A → bool) (l : list A) : option nat :=
  match l with
  | [] => None
  | x :: t => if p x then Some 0%nat else S <$> findIndex p t
  end.

(** [l.slice(start, end)]: a negative bound counts from the end, and both
    bounds are clamped into [0, l.length]. *)
Definition slice {A} (start stop : Z) (l : list A) : list A :=
  let len := Z.of_nat (length l) in
  let k := if start <? 0 then Z.max (len + start) 0 else Z.min start len in
  let final := if stop <? 0 then Z.max (len + stop) 0 else Z.min stop len in
  firstn (Z.to_nat (final - k)) (skipn (Z.to_nat k) l).

(** [l.sort(cmp)].  ECMAScript requires the sort to be stable, so for a
    comparator that is a consistent ordering the result is the one of any
    stable sort; insertion sort is taken here.  For a comparator that is not
    consistent the standard leaves the order to the engine: what is proved
    of [array_sort] speaks for the code under [consistent] only. *)
Fixpoint sort_insert {A} (cmp : A → A → Z) (x : A) (l : list A) : list A :=
  match l with
  | [] => [x]
  | y :: t => if cmp x y <=? 0 then x :: y :: t else y :: sort_insert cmp x t
  end.

Fixpoint array_sort {A} (cmp : A → A → Z) (l : list A) : list A :=
  match l with
  | [] => []
  | x :: t => sort_insert cmp x (array_sort cmp t)
  end.

(** A consistent comparator for the values of [l], in the terms of
    ECMAScript (Array.prototype.sort): equal, less and greater under [cmp]
    are reflexive, symmetric and transitive as their names say. *)
Definition consistent {A} (cmp : A → A → Z) (l : list A) : Prop :=
  ∀ a b c, a ∈ l → b ∈ l → c ∈ l →
    cmp a a = 0 ∧
    (cmp a b = 0 → cmp b a = 0) ∧
    (cmp a b = 0 → cmp b c = 0 → cmp a c = 0) ∧
    (cmp a b < 0 → cmp b c < 0 → cmp a c < 0) ∧
    (cmp a b > 0 → cmp b c > 0 → cmp a c > 0).

(** No element of [l] is greater under [cmp] than one that follows it. *)
Definition ordered {A} (cmp : A → A → Z) (l : list A) : Prop :=
  ∀ i j a b, (i < j)%nat → l !! i = Some a → l !! j = Some b → cmp a b <= 0.

(** [l.map((item, index) => f(item, index))] *)
Fixpoint mapi_from {A B} (i : nat) (f : A → nat → B) (l : list A) : list B :=
  match l with
  | [] => []
  | x :: t => f x i :: mapi_from (S i) f t
  end.

Definition mapi {A B} (f : A → nat → B) (l : list A) : list B :=
  mapi_from 0 f l.

(** ** A host for running examples

    Code-unit collation, plain decimal integers for [Number(s)], and a
    regular expression engine that takes literal patterns only (a pattern
    with a metacharacter is refused, as a malformed one is). *)

Definition codeUnitCompare (a b : string) : Z :=
  match String.compare a b with
  | Lt => -1
  | Eq => 0
  | Gt => 1
  end.

Fixpoint readDigits (acc : Z) (s : string) : option Z :=
  match s with
  | EmptyString => Some acc
  | String c t =>
      let n := nat_of_ascii c in
      if ((48 <=? n) && (n <=? 57))%nat
      then readDigits (acc * 10 + Z.of_nat (n - 48)) t
      else None
  end.

Definition readInteger (s : string) : option Z :=
  match s with
  | EmptyString => Some 0
  | String "-" EmptyString => None
  | String "-" t => Z.opp <$> readDigits 0 t
  | _ => readDigits 0 s
  end.

Definition isMetaChar (c : ascii) : bool :=
  existsb (Ascii.eqb c)
          ["\"; "^"; "$"; "."; "|"; "?"; "*"; "+"; "("; ")"; "["; "]"; "{"; "}"]%char.

Definition literalTest (pattern : string) (caseSensitive : bool) (s : string) : option bool :=
  if existsb isMetaChar (list_ascii_of_string pattern) then None
  else if caseSensitive then Some (includes s pattern)
  else Some (includes (toLowerCase s) (toLowerCase pattern)).

Definition sampleHost : JsHost :=
  {| localeCompare := codeUnitCompare;
     StringToNumber := readInteger;
     RegExp_test := literalTest |}.

End Js.

(* ===================================================================== *)
(** * VirtualizationService                                               *)
(* ===================================================================== *)

Module Virtualization.

(** The five signals of the service.  Pixel measures are exact rationals
    (JavaScript numbers without rounding); the two counts are integers.  The
    code divides and multiplies doubles, which round, so the model speaks
    for it only where a statement does not rest on an exact quotient or
    product: the window facts below are order facts about the integers that
    [Math.floor], [Math.ceil], [Math.max] and [Math.min] return. *)
Record Service : Type := {
  _containerHeight : Q;
  _itemHeight : Q;
  _overscan : Z;
  _scrollTop : Q;
  _totalItems : Z
}.

Definition initial : Service :=
  {| _containerHeight := 400; _itemHeight := 40; _overscan := 5;
     _scrollTop := 0; _totalItems := 0 |}.

Definition visibleItems (s : Service) : Z :=
  Qceiling (_containerHeight s / _itemHeight s).

Definition visibleStartIndex (s : Service) : Z :=
  let startIndex := Qfloor (_scrollTop s / _itemHeight s) in
  Z.max 0 (startIndex - _overscan s).

Definition visibleEndIndex (s : Service) : Z :=
  let endIndex := visibleStartIndex s + visibleItems s + _overscan s * 2 in
  Z.min (_totalItems s - 1) endIndex.

Definition totalHeight (s : Service) : Q :=
  inject_Z (_totalItems s) * _itemHeight s.

Definition offsetY (s : Service) : Q :=
  inject_Z (visibleStartIndex s) * _itemHeight s.

Record VirtualizationState : Type := {
  containerHeight : Q;
  itemHeight : Q;
  overscan : Z;
  scrollTop : Q;
  totalItems : Z;
  st_visibleStartIndex : Z;
  st_visibleEndIndex : Z;
  st_visibleItems : Z;
  st_totalHeight : Q;
  st_offsetY : Q
}.

Definition state (s : Service) : VirtualizationState :=
  {| containerHeight := _containerHeight s;
     itemHeight := _itemHeight s;
     overscan := _overscan s;
     scrollTop := _scrollTop s;
     totalItems := _totalItems s;
     st_visibleStartIndex := visibleStartIndex s;
     st_visibleEndIndex := visibleEndIndex s;
     st_visibleItems := visibleItems s;
     st_totalHeight := totalHeight s;
     st_offsetY := offsetY s |}.

Definition setContainerHeight (height : Q) (s : Service) : Service :=
  {| _containerHeight := height; _itemHeight := _itemHeight s;
     _overscan := _overscan s; _scrollTop := _scrollTop s;
     _totalItems := _totalItems s |}.

Definition setItemHeight (height : Q) (s : Service) : Service :=
  {| _containerHeight := _containerHeight s; _itemHeight := height;
     _overscan := _overscan s; _scrollTop := _scrollTop s;
     _totalItems := _totalItems s |}.

Definition setOverscan (o : Z) (s : Service) : Service :=
  {| _containerHeight := _containerHeight s; _itemHeight := _itemHeight s;
     _overscan := o; _scrollTop := _scrollTop s;
     _totalItems := _totalItems s |}.

Definition setTotalItems (count : Z) (s : Service) : Service :=
  {| _containerHeight := _containerHeight s; _itemHeight := _itemHeight s;
     _overscan := _overscan s; _scrollTop := _scrollTop s;
     _totalItems := count |}.

Definition handleScroll (top : Q) (s : Service) : Service :=
  {| _containerHeight := _containerHeight s; _itemHeight := _itemHeight s;
     _overscan := _overscan s; _scrollTop := top;
     _totalItems := _totalItems s |}.

(** [items.slice(start, end + 1)] *)
Definition getVisibleItems {A} (items : list A) (s : Service) : list A :=
  let start := visibleStartIndex s in
  let stop := visibleEndIndex s + 1 in
  Js.slice start stop items.

(** The inputs the service is meant for. *)
Definition valid (s : Service) : Prop :=
  (0 <= _scrollTop s)%Q ∧ (0 < _itemHeight s)%Q ∧ (0 < _containerHeight s)%Q ∧
  0 <= _overscan s ∧ 0 <= _totalItems s.

(** The inputs of the documented scenario. *)
Definition scenario_window : Service :=
  {| _containerHeight := 400; _itemHeight := 40; _overscan := 5;
     _scrollTop := 0; _totalItems := 100 |}.

(** [reset()]: back to the top of an empty list. *)
Definition reset (s : Service) : Service :=
  setTotalItems 0 (handleScroll 0%Q s).

End Virtualization.

(* ===================================================================== *)
(** * GridStateService                                                    *)
(* ===================================================================== *)

Module Grid.
Import Js.

(** ** Interfaces (grid.interface.ts) *)

(** A record of the data set is a JavaScript object with primitive fields
    of its own; [data[k]] is [undefined] for a missing key. *)
Definition getProp (data : gmap string JsValue) (k : string) : JsValue :=
  default VUndefined (data !! k).

Inductive Accessor : Type :=
  | AccessorKey (k : string)
  | AccessorFn (f : gmap string JsValue → JsValue).

Record GridColumn : Type := {
  col_id : string;
  col_header : string;
  accessor : option Accessor;
  sortCompareFn : option (JsValue → JsValue → Z);
  filterFn : option (JsValue → JsValue → bool)
}.

Record GridRow : Type := {
  row_id : JsValue;
  row_data : gmap string JsValue;
  row_index : nat;
  selected : bool;
  expanded : bool;
  disabled : bool
}.

Inductive Direction : Type := asc | desc.

Record GridSort : Type := {
  sort_columnId : string;
  direction : Direction
}.

Record GridFilter : Type := {
  filter_columnId : string;
  filter_value : JsValue;
  operator : option string
}.

Record GridPagination : Type := {
  currentPage : Z;
  pageSize : Z;
  totalItems : Z;
  totalPages : Z;
  pageSizeOptions : list Z
}.

Inductive SelectionMode : Type := single | multiple | none.

Record GridSelection : Type := {
  mode : SelectionMode;
  selectedRows : list GridRow;
  selectedIds : list JsValue;
  selectAll : bool;
  indeterminate : bool
}.

(** Every option is optional: [None] is a key that is not given. *)
Record GridOptions : Type := {
  enableSorting : option bool;
  enableFiltering : option bool;
  enablePagination : option bool;
  enableSelection : option bool;
  multiSort : option bool;
  selectionMode : option SelectionMode;
  opt_pageSize : option Z;
  opt_pageSizeOptions : option (list Z);
  persistState : option bool;
  stateKey : option string;
  debounceMs : option Z
}.

Definition noOptions : GridOptions :=
  {| enableSorting := None; enableFiltering := None; enablePagination := None;
     enableSelection := None; multiSort := None; selectionMode := None;
     opt_pageSize := None; opt_pageSizeOptions := None; persistState := None;
     stateKey := None; debounceMs := None |}.

(** Truth value of an optional boolean option. *)
Definition enabled (o : option bool) : bool := default false o.

(** ** Persisted snapshots *)

(** The object written by [exportState] and read back by [importState]; a
    field is [None] when the key is missing (or holds a falsy value), and
    [Some v] when it holds a value of the type the signal has.  A text that
    parses to something else (an array, whose [sort] is the inherited
    method, or an object with a truthy value of another type under one of
    the four keys) puts into a signal what the typed state cannot hold; the
    snapshots say nothing of such texts. *)
Record Snapshot : Type := {
  snap_sort : option (list GridSort);
  snap_filters : option (list GridFilter);
  snap_pagination : option GridPagination;
  snap_selection : option GridSelection
}.

(** What [JSON.parse] returns when it returns: the value [null], on which a
    property read throws a [TypeError], or a value whose properties can be
    read. *)
Inductive Parsed : Type :=
  | ParsedNull
  | ParsedObject (s : Snapshot).

(** [JSON_parse s] is [None] when [JSON.parse(s)] throws its [SyntaxError],
    that is, when [s] is not valid JSON. *)
Class JsonHost : Type := {
  JSON_parse : string → option Parsed;
  JSON_stringify : Snapshot → string
}.

(** ** The service state: one field per signal, and the browser's
    [localStorage] the service reads in [initialize].  (The auto-save effect
    registered by the constructor is run by the scheduler of the run time and
    is not modelled.) *)
Record Service : Type := {
  _data : list (gmap string JsValue);
  _columns : list GridColumn;
  _sort : list GridSort;
  _filters : list GridFilter;
  _pagination : GridPagination;
  _selection : GridSelection;
  _loading : bool;
  _error : option string;
  _options : GridOptions;
  localStorage : gmap string string
}.

Definition new_service : Service :=
  {| _data := [];
     _columns := [];
     _sort := [];
     _filters := [];
     _pagination := {| currentPage := 1; pageSize := 10; totalItems := 0;
                       totalPages := 0; pageSizeOptions := [10; 25; 50; 100] |};
     _selection := {| mode := none; selectedRows := []; selectedIds := [];
                      selectAll := false; indeterminate := false |};
     _loading := false;
     _error := None;
     _options := noOptions;
     localStorage := ∅ |}.

(** [signal.set] for the signals the methods write. *)
Definition set_data (d : list (gmap string JsValue)) (st : Service) : Service :=
  {| _data := d; _columns := _columns st; _sort := _sort st;
     _filters := _filters st; _pagination := _pagination st;
     _selection := _selection st; _loading := _loading st;
     _error := _error st; _options := _options st;
     localStorage := localStorage st |}.

Definition set_columns (c : list GridColumn) (st : Service) : Service :=
  {| _data := _data st; _columns := c; _sort := _sort st;
     _filters := _filters st; _pagination := _pagination st;
     _selection := _selection st; _loading := _loading st;
     _error := _error st; _options := _options st;
     localStorage := localStorage st |}.

Definition set_sort (s : list GridSort) (st : Service) : Service :=
  {| _data := _data st; _columns := _columns st; _sort := s;
     _filters := _filters st; _pagination := _pagination st;
     _selection := _selection st; _loading := _loading st;
     _error := _error st; _options := _options st;
     localStorage := localStorage st |}.

Definition set_filters (f : list GridFilter) (st : Service) : Service :=
  {| _data := _data st; _columns := _columns st; _sort := _sort st;
     _filters := f; _pagination := _pagination st;
     _selection := _selection st; _loading := _loading st;
     _error := _error st; _options := _options st;
     localStorage := localStorage st |}.

Definition set_pagination (p : GridPagination) (st : Service) : Service :=
  {| _data := _data st; _columns := _columns st; _sort := _sort st;
     _filters := _filters st; _pagination := p;
     _selection := _selection st; _loading := _loading st;
     _error := _error st; _options := _options st;
     localStorage := localStorage st |}.

Definition set_selection (s : GridSelection) (st : Service) : Service :=
  {| _data := _data st; _columns := _columns st; _sort := _sort st;
     _filters := _filters st; _pagination := _pagination st;
     _selection := s; _loading := _loading st;
     _error := _error st; _options := _options st;
     localStorage := localStorage st |}.

Definition set_options (o : GridOptions) (st : Service) : Service :=
  {| _data := _data st; _columns := _columns st; _sort := _sort st;
     _filters := _filters st; _pagination := _pagination st;
     _selection := _selection st; _loading := _loading st;
     _error := _error st; _options := o;
     localStorage := localStorage st |}.

(** [{ ...p, currentPage }], [{ ...p, pageSize, currentPage }] and the like *)
Definition with_currentPage (page : Z) (p : GridPagination) : GridPagination :=
  {| currentPage := page; pageSize := pageSize p; totalItems := totalItems p;
     totalPages := totalPages p; pageSizeOptions := pageSizeOptions p |}.

Definition with_pageSize (size : Z) (p : GridPagination) : GridPagination :=
  {| currentPage := currentPage p; pageSize := size; totalItems := totalItems p;
     totalPages := totalPages p; pageSizeOptions := pageSizeOptions p |}.

Definition with_pageSizeOptions (o : list Z) (p : GridPagination) : GridPagination :=
  {| currentPage := currentPage p; pageSize := pageSize p;
     totalItems := totalItems p; totalPages := totalPages p;
     pageSizeOptions := o |}.

Definition with_totals (items pages : Z) (p : GridPagination) : GridPagination :=
  {| currentPage := currentPage p; pageSize := pageSize p; totalItems := items;
     totalPages := pages; pageSizeOptions := pageSizeOptions p |}.

Definition with_mode (m : SelectionMode) (s : GridSelection) : GridSelection :=
  {| mode := m; selectedRows := selectedRows s; selectedIds := selectedIds s;
     selectAll := selectAll s; indeterminate := indeterminate s |}.

(** ** Signal writes.  Angular runs the body of a [computed] with writes to
    signals forbidden: a [set] or [update] reached there writes nothing and
    throws the runtime error NG0600 (writing to signals is not allowed in a
    computed).  A method called from outside may write. *)
Inductive ReactiveContext : Type := InMethod | InComputed.

Inductive RuntimeError : Type := NG0600.

Inductive Outcome (A : Type) : Type :=
  | Returned (a : A)
  | Thrown (e : RuntimeError).
Arguments Returned {A} a.
Arguments Thrown {A} e.

(** A write that would leave the service as [st']. *)
Definition signal_write (ctx : ReactiveContext) (st' : Service) : Outcome Service :=
  match ctx with
  | InMethod => Returned st'
  | InComputed => Thrown NG0600
  end.

(** [Math.ceil(a / b)] on integers.  For [b = 0] JavaScript yields
    [Infinity] or [NaN], which the integer model does not hold; the
    expression is 0 there and nothing below relies on that case. *)
Definition ceil_div (a b : Z) : Z := - ((- a) / b).

(** ** The documented scenario: three records, two plain columns *)

Definition record1 : gmap string JsValue := {[ "id" := VNum 1; "age" := VNum 30 ]}.
Definition record2 : gmap string JsValue := {[ "id" := VNum 2; "age" := VNum 25 ]}.
Definition record3 : gmap string JsValue := {[ "id" := VNum 3; "age" := VNum 25 ]}.

Definition scenario_records : list (gmap string JsValue) :=
  [record1; record2; record3].

Definition plainColumn (name : string) : GridColumn :=
  {| col_id := name; col_header := name; accessor := None;
     sortCompareFn := None; filterFn := None |}.

Definition scenario_columns : list GridColumn :=
  [plainColumn "id"; plainColumn "age"].

Definition scenario_options : GridOptions :=
  {| enableSorting := None; enableFiltering := None; enablePagination := None;
     enableSelection := None; multiSort := Some true; selectionMode := None;
     opt_pageSize := None; opt_pageSizeOptions := None; persistState := None;
     stateKey := None; debounceMs := None |}.

Section Methods.
Context `{JsHost} `{JsonHost}.

(** ** Private helpers *)

(** A record is an object, so the test
    [typeof item === 'object' && item !== null] holds and the identifier is
    [obj.id ?? obj._id ?? obj.uuid ?? index]. *)
Definition getRowId (item : gmap string JsValue) (index : nat) : JsValue :=
  coalesce (coalesce (coalesce (getProp item "id") (getProp item "_id"))
                     (getProp item "uuid"))
           (VNum (Z.of_nat index)).

Definition getCellValue (data : gmap string JsValue) (column : GridColumn) : JsValue :=
  match accessor column with
  | Some (AccessorFn f) => f data
  | Some (AccessorKey k) =>
      (* an empty accessor string is falsy *)
      if String.eqb k "" then getProp data (col_id column) else getProp data k
  | None => getProp data (col_id column)
  end.

Definition defaultFilter (value filterValue : JsValue) (operator : string) : bool :=
  if isNullish value then false else
  let strValue := toLowerCase (ToString value) in
  let strFilter := toLowerCase (ToString filterValue) in
  if String.eqb operator "equals" then String.eqb strValue strFilter
  else if String.eqb operator "contains" then includes strValue strFilter
  else if String.eqb operator "startsWith" then startsWith strValue strFilter
  else if String.eqb operator "endsWith" then endsWith strValue strFilter
  else if String.eqb operator "greaterThan" then
    num_gt (ToNumber value) (ToNumber filterValue)
  else if String.eqb operator "lessThan" then
    num_lt (ToNumber value) (ToNumber filterValue)
  else includes strValue strFilter.

(** The values of the model hold no [Date], so the [instanceof Date] branch
    of the source is never taken and control reaches the final
    [String(a).localeCompare(String(b))]. *)
Definition defaultSort (a b : JsValue) : Z :=
  if isNullish a && isNullish b then 0
  else if isNullish a then -1
  else if isNullish b then 1
  else match a, b with
       | VStr x, VStr y => localeCompare x y
       | VNum x, VNum y => x - y
       | _, _ => localeCompare (ToString a) (ToString b)
       end.

(** ** Computed rows *)

Definition rows (st : Service) : list GridRow :=
  mapi (λ item index,
          {| row_id := getRowId item index;
             row_data := item;
             row_index := index;
             selected := array_includes (selectedIds (_selection st))
                                        (getRowId item index);
             expanded := false;
             disabled := false |})
       (_data st).

(** [filter.operator || 'contains'] *)
Definition operator_or_contains (o : option string) : string :=
  match o with
  | Some s => if String.eqb s "" then "contains" else s
  | None => "contains"
  end.

Definition passesFilter (columns : list GridColumn) (row : GridRow)
    (filter : GridFilter) : bool :=
  match List.find (λ c, String.eqb (col_id c) (filter_columnId filter)) columns with
  | None => true
  | Some column =>
      let value := getCellValue (row_data row) column in
      match filterFn column with
      | Some fn => fn value (filter_value filter)
      | None => defaultFilter value (filter_value filter)
                              (operator_or_contains (operator filter))
      end
  end.

Definition applyFilters (st : Service) (rows : list GridRow) : list GridRow :=
  let filters := _filters st in
  let columns := _columns st in
  if (length filters =? 0)%nat then rows
  else List.filter (λ row, forallb (passesFilter columns row) filters) rows.

(** The comparator handed to [sort]: the loop over the sort entries. *)
Fixpoint compareRows (columns : list GridColumn) (sorts : list GridSort)
    (a b : GridRow) : Z :=
  match sorts with
  | [] => 0
  | sort :: rest =>
      match List.find (λ c, String.eqb (col_id c) (sort_columnId sort)) columns with
      | None => compareRows columns rest a b
      | Some column =>
          let aValue := getCellValue (row_data a) column in
          let bValue := getCellValue (row_data b) column in
          let comparison :=
            match sortCompareFn column with
            | Some fn => fn aValue bValue
            | None => defaultSort aValue bValue
            end in
          if negb (comparison =? 0) then
            match direction sort with
            | asc => comparison
            | desc => - comparison
            end
          else compareRows columns rest a b
      end
  end.

Definition applySorting (st : Service) (rows : list GridRow) : list GridRow :=
  let sorts := _sort st in
  let columns := _columns st in
  if (length sorts =? 0)%nat then rows
  else array_sort (compareRows columns sorts) rows.

Definition applyPagination (st : Service) (rows : list GridRow) : list GridRow :=
  let options := _options st in
  if negb (enabled (enablePagination options)) then rows else
  let pagination := _pagination st in
  let startIndex := (currentPage pagination - 1) * pageSize pagination in
  let endIndex := startIndex + pageSize pagination in
  slice startIndex endIndex rows.

(** [this._pagination.update(p => ({ ...p, totalItems, totalPages }))], in
    the reactive context it is reached in. *)
Definition updatePaginationTotals (ctx : ReactiveContext) (totalFilteredItems : Z)
    (st : Service) : Outcome Service :=
  let p := _pagination st in
  signal_write ctx
    (set_pagination (with_totals totalFilteredItems
                                 (ceil_div totalFilteredItems (pageSize p)) p) st).

(** ** Computed processed rows (filtered, sorted, paginated).  The body is
    the one of the source; it calls [updatePaginationTotals] from inside the
    [computed], so the write is refused and the read throws before the page
    is cut. *)
Definition processedRows (st : Service) : Outcome (list GridRow * Service) :=
  let rows0 := rows st in
  let rows1 := applyFilters st rows0 in
  let rows2 := applySorting st rows1 in
  match updatePaginationTotals InComputed (Z.of_nat (length rows2)) st with
  | Thrown e => Thrown e
  | Returned st' => Returned (applyPagination st' rows2, st')
  end.

(** ** Sorting methods *)

Definition sortBy (columnId : string) (dir : option Direction) (st : Service) : Service :=
  let options := _options st in
  if negb (enabled (enableSorting options)) then st else
  let sorts := _sort st in
  let existingIndex := findIndex (λ s, String.eqb (sort_columnId s) columnId) sorts in
  let currentDirection :=
    match existingIndex with
    | Some i => direction <$> sorts !! i
    | None => None
    end in
  let newDirection :=
    match dir with
    | Some d => d
    | None => match currentDirection with
              | Some asc => desc
              | _ => asc
              end
    end in
  let entry := {| sort_columnId := columnId; direction := newDirection |} in
  if enabled (multiSort options) then
    match existingIndex with
    | Some i =>
        (* sorts[existingIndex].direction = newDirection *)
        set_sort (alter (λ s, {| sort_columnId := sort_columnId s;
                                 direction := newDirection |}) i sorts) st
    | None => set_sort (sorts ++ [entry]) st
    end
  else set_sort [entry] st.


Definition getSortDirection (columnId : string) (st : Service) : option Direction :=
  direction <$> List.find (λ s, String.eqb (sort_columnId s) columnId) (_sort st).

(** ** Filtering methods *)

(** [operator] is [None] when the argument is left out: the default
    parameter ['contains'] applies. *)
Definition setFilter (columnId : string) (value : JsValue)
    (op : option string) (st : Service) : Service :=
  let options := _options st in
  if negb (enabled (enableFiltering options)) then st else
  let filters := _filters st in
  let existingIndex :=
    findIndex (λ f, String.eqb (filter_columnId f) columnId) filters in
  let newFilter := {| filter_columnId := columnId; filter_value := value;
                      operator := Some (default "contains" op) |} in
  let filters' :=
    if isNullish value || bool_decide (value = VStr "") then
      List.filter (λ f, negb (String.eqb (filter_columnId f) columnId)) filters
    else match existingIndex with
         | Some i => <[i := newFilter]> filters
         | None => filters ++ [newFilter]
         end in
  let st1 := set_filters filters' st in
  set_pagination (with_currentPage 1 (_pagination st1)) st1.


Definition getFilterValue (columnId : string) (st : Service) : JsValue :=
  match List.find (λ f, String.eqb (filter_columnId f) columnId) (_filters st) with
  | Some f => filter_value f
  | None => VNull
  end.

(** ** Pagination methods *)

Definition setPage (page : Z) (st : Service) : Service :=
  let pagination := _pagination st in
  if (1 <=? page) && (page <=? totalPages pagination)
  then set_pagination (with_currentPage page pagination) st
  else st.

Definition setPageSize (size : Z) (st : Service) : Service :=
  set_pagination (with_currentPage 1 (with_pageSize size (_pagination st))) st.

(** ** Selection methods *)

(** [includes] compares by SameValueZero and [===], [!==] strictly; the two
    differ on [NaN] only, which is not among the values of [JsValue], so both
    are the equality of the model.  What is stated of [selectRow] below does
    not depend on how an id [NaN] would be taken out. *)
Definition selectRow (rowId : JsValue) (sel : bool) (st : Service) : Service :=
  let selectionMode := mode (_selection st) in
  match selectionMode with
  | none => st
  | _ =>
      let selection := _selection st in
      let ids0 := selectedIds selection in
      let rows0 := selectedRows selection in
      let '(ids1, rows1) :=
        if sel then
          match selectionMode with
          | single =>
              ([rowId],
               List.filter (λ row, bool_decide (row_id row = rowId)) (rows st))
          | _ =>
              if negb (array_includes ids0 rowId) then
                (ids0 ++ [rowId],
                 match List.find (λ r, bool_decide (row_id r = rowId)) (rows st) with
                 | Some row => rows0 ++ [row]
                 | None => rows0
                 end)
              else (ids0, rows0)
          end
        else
          (List.filter (λ id, negb (bool_decide (id = rowId))) ids0,
           List.filter (λ row, negb (bool_decide (row_id row = rowId))) rows0) in
      let allRowIds := List.map row_id (rows st) in
      let all := (0 <? length allRowIds)%nat &&
                 forallb (λ id, array_includes ids1 id) allRowIds in
      let indet := (0 <? length ids1)%nat && negb all in
      set_selection {| mode := mode selection; selectedRows := rows1;
                       selectedIds := ids1; selectAll := all;
                       indeterminate := indet |} st
  end.

Definition selectAllRows (sel : bool) (st : Service) : Service :=
  let selectionMode := mode (_selection st) in
  match selectionMode with
  | multiple =>
      let selection := _selection st in
      if sel then
        let allRows := rows st in
        set_selection {| mode := mode selection; selectedRows := allRows;
                         selectedIds := List.map row_id allRows;
                         selectAll := true; indeterminate := false |} st
      else
        set_selection {| mode := mode selection; selectedRows := [];
                         selectedIds := []; selectAll := false;
                         indeterminate := false |} st
  | _ => st
  end.

Definition toggleRowSelection (rowId : JsValue) (st : Service) : Service :=
  let isSelected := array_includes (selectedIds (_selection st)) rowId in
  selectRow rowId (negb isSelected) st.


(** ** Utility methods *)


Definition exportState (st : Service) : string :=
  JSON_stringify {| snap_sort := Some (_sort st);
                    snap_filters := Some (_filters st);
                    snap_pagination := Some (_pagination st);
                    snap_selection := Some (_selection st) |}.

(** The body of the [try]: the four guarded [set] calls. *)
Definition restore (state : Snapshot) (st : Service) : Service :=
  let st1 := match snap_sort state with
             | Some s => set_sort s st
             | None => st
             end in
  let st2 := match snap_filters state with
             | Some f => set_filters f st1
             | None => st1
             end in
  let st3 := match snap_pagination state with
             | Some p => set_pagination p st2
             | None => st2
             end in
  match snap_selection state with
  | Some s => set_selection s st3
  | None => st3
  end.

(** [try { ... } catch (error) { console.error(...) }]: the [SyntaxError] of
    [JSON.parse] and the [TypeError] of reading [state.sort] on [null] both
    reach the [catch], before any signal is written. *)
Definition importState (stateJson : string) (st : Service) : Service :=
  match JSON_parse stateJson with
  | None => st
  | Some ParsedNull => st
  | Some (ParsedObject state) => restore state st
  end.

(** [{ enableSorting: true, ..., ...options }] *)
Definition withDefaults (options : GridOptions) : GridOptions :=
  let over {A} (d : A) (o : option A) : option A :=
    match o with
    | Some x => Some x
    | None => Some d
    end in
  {| enableSorting := over true (enableSorting options);
     enableFiltering := over true (enableFiltering options);
     enablePagination := over true (enablePagination options);
     enableSelection := over false (enableSelection options);
     multiSort := over false (multiSort options);
     selectionMode := over none (selectionMode options);
     opt_pageSize := over 10 (opt_pageSize options);
     opt_pageSizeOptions := over [10; 25; 50; 100] (opt_pageSizeOptions options);
     persistState := persistState options;
     stateKey := stateKey options;
     debounceMs := over 300 (debounceMs options) |}.

Definition initialize (data : list (gmap string JsValue))
    (columns : list GridColumn) (options : GridOptions) (st : Service) : Service :=
  let st1 := set_data data st in
  let st2 := set_columns columns st1 in
  let st3 := set_options (withDefaults options) st2 in
  (* options.pageSize || 10, options.pageSizeOptions || [10, 25, 50, 100] *)
  let size := match opt_pageSize options with
              | Some n => if n =? 0 then 10 else n
              | None => 10
              end in
  let sizes := default [10; 25; 50; 100] (opt_pageSizeOptions options) in
  let st4 := set_pagination
               (with_pageSizeOptions sizes (with_pageSize size (_pagination st3)))
               st3 in
  (* options.selectionMode || 'none' *)
  let st5 := set_selection
               (with_mode (default none (selectionMode options)) (_selection st4))
               st4 in
  (* load the persisted state, if any *)
  match stateKey options with
  | Some key =>
      if enabled (persistState options) && negb (String.eqb key "") then
        match localStorage st5 !! key with
        | Some savedState =>
            if String.eqb savedState "" then st5 else importState savedState st5
        | None => st5
        end
      else st5
  | None => st5
  end.

(** The grid of the scenario, after [initialize]. *)
Definition scenario_grid : Service :=
  initialize scenario_records scenario_columns scenario_options new_service.

(** ** Notions used to state the properties *)

(** The row sequence after the filter and sort stages, before the page is
    cut out of it. *)
Definition filteredSorted (st : Service) : list GridRow :=
  applySorting st (applyFilters st (rows st)).

(** The page numbers [1, 2, ..., n]. *)
Definition pageNumbers (n : Z) : list Z := Z.of_nat <$> seq 1 (Z.to_nat n).

(** The page that [applyPagination] cuts out of [rws] when the stored
    current page is [page]. *)
Definition pageAt (page : Z) (st : Service) (rws : list GridRow) : list GridRow :=
  applyPagination (set_pagination (with_currentPage page (_pagination st)) st) rws.

(** What a read of [processedRows] leaves of the service: the state the
    computation wrote, or the state as it was when the read threw. *)
Definition afterRead (st : Service) : Service :=
  match processedRows st with
  | Returned (_, st') => st'
  | Thrown _ => st
  end.

(** A call of one of the two selection methods, and a sequence of calls. *)
Inductive SelectionCall : Type :=
  | CallSelectRow (rowId : JsValue) (sel : bool)
  | CallSelectAllRows (sel : bool).

Definition call (c : SelectionCall) (st : Service) : Service :=
  match c with
  | CallSelectRow rowId sel => selectRow rowId sel st
  | CallSelectAllRows sel => selectAllRows sel st
  end.

Definition callAll (calls : list SelectionCall) (st : Service) : Service :=
  fold_left (λ s c, call c s) calls st.




(** The state a selection starts from: nothing selected, both flags down. *)
Definition freshSelection (st : Service) : Prop :=
  selectedIds (_selection st) = [] ∧
  selectAll (_selection st) = false ∧
  indeterminate (_selection st) = false.

(** [selectedIds] holds the identifier of every row of the full row set. *)
Definition holdsEveryRowId (st : Service) : Prop :=
  ∀ r, r ∈ rows st → row_id r ∈ selectedIds (_selection st).

Definition selectAllAgrees (st : Service) : Prop :=
  selectAll (_selection st) = true ↔ holdsEveryRowId st.

Definition indeterminateAgrees (st : Service) : Prop :=
  indeterminate (_selection st) = true ↔
  selectedIds (_selection st) ≠ [] ∧ selectAll (_selection st) = false.

(** The invariant kept by the selection methods. *)
Definition selectionInvariant (st : Service) : Prop :=
  indeterminateAgrees st ∧ (_data st ≠ [] → selectAllAgrees st).

(** The array that the update callback of [setFilter] returns. *)
Definition filtersAfterSet (c : string) (v : JsValue) (op : option string)
    (filters : list GridFilter) : list GridFilter :=
  let newFilter := {| filter_columnId := c; filter_value := v;
                      operator := Some (default "contains" op) |} in
  if isNullish v || bool_decide (v = VStr "") then
    List.filter (λ f, negb (String.eqb (filter_columnId f) c)) filters
  else match findIndex (λ f, String.eqb (filter_columnId f) c) filters with
       | Some i => <[i := newFilter]> filters
       | None => filters ++ [newFilter]
       end.

(** The direction [sortBy] settles on: the one given, or the toggle of the
    current one. *)
Definition directionAfter (dir : option Direction) (current : option Direction)
  : Direction :=
  match dir with
  | Some d => d
  | None => match current with
            | Some asc => desc
            | _ => asc
            end
  end.


(** The identity a record declares itself: [obj.id ?? obj._id ?? obj.uuid],
    nullish when it declares none. *)
Definition declaredId (item : gmap string JsValue) : JsValue :=
  coalesce (coalesce (getProp item "id") (getProp item "_id"))
           (getProp item "uuid").

End Methods.

(** A host for running examples whose JSON reader knows the two texts
    [null] and [{}] and refuses every other one. *)
Definition emptySnapshot : Snapshot :=
  {| snap_sort := None; snap_filters := None; snap_pagination := None;
     snap_selection := None |}.

Definition sampleJsonHost : JsonHost :=
  {| JSON_parse := λ s,
       if String.eqb s "null" then Some ParsedNull
       else if String.eqb s "{}" then Some (ParsedObject emptySnapshot)
       else None;
     JSON_stringify := λ _, "{}" |}.

End Grid.

(* ===================================================================== *)
(** * ColumnManagementService                                             *)
(* ===================================================================== *)

Module Columns.
Import Js.

(** [width?: string | number] *)
Inductive Width : Type :=
  | WidthNum (n : Z)
  | WidthStr (s : string).

Record DynamicColumn : Type := {
  col_id : string;
  header : string;
  width : option Width;
  hidden : option bool
}.

Record ColumnGroup : Type := {
  group_id : string;
  group_header : string;
  children : list string;
  group_expanded : option bool
}.

Record LockedColumns : Type := {
  locked_left : list string;
  locked_right : list string
}.

(** What [widths[columnId] || 150] evaluates to: a number, or, for a key
    the object does not own, the member it inherits from [Object.prototype]
    (a function or, for [__proto__], the prototype itself; truthy either
    way). *)
Inductive WidthRead : Type :=
  | WidthIs (w : Z)
  | InheritedMember (name : string).

(** What the three [Subject]s of the service emit. *)
Inductive ColumnEvent : Type :=
  | ColumnResized (columnId : string) (newWidth : Z) (oldWidth : WidthRead)
  | ColumnReordered (columnId : string) (newIndex oldIndex : Z)
  | ColumnToggled (columnId : string) (visible : bool).

Record Service : Type := {
  _columns : list DynamicColumn;
  _columnGroups : list ColumnGroup;
  _columnOrder : list string;
  _columnWidths : gmap string Z;
  _lockedColumns : LockedColumns;
  _hiddenColumns : list string;
  emitted : list ColumnEvent
}.

Definition new_service : Service :=
  {| _columns := []; _columnGroups := []; _columnOrder := [];
     _columnWidths := ∅;
     _lockedColumns := {| locked_left := []; locked_right := [] |};
     _hiddenColumns := []; emitted := [] |}.

Definition set_columns (c : list DynamicColumn) (st : Service) : Service :=
  {| _columns := c; _columnGroups := _columnGroups st;
     _columnOrder := _columnOrder st; _columnWidths := _columnWidths st;
     _lockedColumns := _lockedColumns st; _hiddenColumns := _hiddenColumns st;
     emitted := emitted st |}.

Definition set_columnGroups (g : list ColumnGroup) (st : Service) : Service :=
  {| _columns := _columns st; _columnGroups := g;
     _columnOrder := _columnOrder st; _columnWidths := _columnWidths st;
     _lockedColumns := _lockedColumns st; _hiddenColumns := _hiddenColumns st;
     emitted := emitted st |}.

Definition set_columnOrder (o : list string) (st : Service) : Service :=
  {| _columns := _columns st; _columnGroups := _columnGroups st;
     _columnOrder := o; _columnWidths := _columnWidths st;
     _lockedColumns := _lockedColumns st; _hiddenColumns := _hiddenColumns st;
     emitted := emitted st |}.

Definition set_columnWidths (w : gmap string Z) (st : Service) : Service :=
  {| _columns := _columns st; _columnGroups := _columnGroups st;
     _columnOrder := _columnOrder st; _columnWidths := w;
     _lockedColumns := _lockedColumns st; _hiddenColumns := _hiddenColumns st;
     emitted := emitted st |}.

Definition set_lockedColumns (l : LockedColumns) (st : Service) : Service :=
  {| _columns := _columns st; _columnGroups := _columnGroups st;
     _columnOrder := _columnOrder st; _columnWidths := _columnWidths st;
     _lockedColumns := l; _hiddenColumns := _hiddenColumns st;
     emitted := emitted st |}.

Definition set_hiddenColumns (h : list string) (st : Service) : Service :=
  {| _columns := _columns st; _columnGroups := _columnGroups st;
     _columnOrder := _columnOrder st; _columnWidths := _columnWidths st;
     _lockedColumns := _lockedColumns st; _hiddenColumns := h;
     emitted := emitted st |}.

(** [subject.next(event)] *)
Definition emit (e : ColumnEvent) (st : Service) : Service :=
  {| _columns := _columns st; _columnGroups := _columnGroups st;
     _columnOrder := _columnOrder st; _columnWidths := _columnWidths st;
     _lockedColumns := _lockedColumns st; _hiddenColumns := _hiddenColumns st;
     emitted := emitted st ++ [e] |}.

(** [ids.includes(id)] and [ids.filter(x => x !== id)] on arrays of column
    identifiers. *)
Definition ids_include (ids : list string) (id : string) : bool :=
  existsb (String.eqb id) ids.

Definition ids_without (id : string) (ids : list string) : list string :=
  List.filter (λ x, negb (String.eqb x id)) ids.

(** ** Computed states *)

Definition orderedColumns (st : Service) : list DynamicColumn :=
  let order := _columnOrder st in
  let columns := _columns st in
  if (length order =? 0)%nat then columns else
  let orderedCols :=
    omap (λ id, List.find (λ col, String.eqb (col_id col) id) columns) order in
  let remainingCols :=
    List.filter (λ col, negb (ids_include order (col_id col))) columns in
  orderedCols ++ remainingCols.

Definition visibleColumns (st : Service) : list DynamicColumn :=
  let hiddenIds := _hiddenColumns st in
  List.filter (λ col, negb (ids_include hiddenIds (col_id col)) &&
                      negb (default false (hidden col)))
              (orderedColumns st).

Definition lockedLeftColumns (st : Service) : list DynamicColumn :=
  let locked := locked_left (_lockedColumns st) in
  List.filter (λ col, ids_include locked (col_id col)) (visibleColumns st).

Definition lockedRightColumns (st : Service) : list DynamicColumn :=
  let locked := locked_right (_lockedColumns st) in
  List.filter (λ col, ids_include locked (col_id col)) (visibleColumns st).

Definition centerColumns (st : Service) : list DynamicColumn :=
  let lockedLeft := locked_left (_lockedColumns st) in
  let lockedRight := locked_right (_lockedColumns st) in
  List.filter (λ col, negb (ids_include lockedLeft (col_id col)) &&
                      negb (ids_include lockedRight (col_id col)))
              (visibleColumns st).

(** ** Column resizing *)

(** The names [Object.prototype] holds (ECMAScript, Object.prototype and
    its additional properties for web browsers): a plain object answers a
    read of one of them also when it has no such key of its own. *)
Definition objectPrototypeKeys : list string :=
  ["constructor"; "hasOwnProperty"; "isPrototypeOf"; "propertyIsEnumerable";
   "toLocaleString"; "toString"; "valueOf"; "__proto__"; "__defineGetter__";
   "__defineSetter__"; "__lookupGetter__"; "__lookupSetter__"].

(** [widths[columnId] || 150] on the plain object of the widths. *)
Definition readWidth (widths : gmap string Z) (columnId : string) : WidthRead :=
  match widths !! columnId with
  | Some w => WidthIs (if w =? 0 then 150 else w)
  | None =>
      if ids_include objectPrototypeKeys columnId
      then InheritedMember columnId
      else WidthIs 150
  end.

(** [{ ...widths, [columnId]: width }]: a computed key is a key of the new
    object's own, whatever its name. *)
Definition updateColumnWidth (columnId : string) (w : Z) (st : Service) : Service :=
  let oldWidth := readWidth (_columnWidths st) columnId in
  let widths := <[columnId := w]> (_columnWidths st) in
  emit (ColumnResized columnId w oldWidth) (set_columnWidths widths st).

Definition removeColumnWidth (columnId : string) (st : Service) : Service :=
  set_columnWidths (delete columnId (_columnWidths st)) st.

(** ** Column visibility *)

Definition hideColumn (columnId : string) (st : Service) : Service :=
  let hiddenIds := _hiddenColumns st in
  if negb (ids_include hiddenIds columnId) then
    emit (ColumnToggled columnId false)
         (set_hiddenColumns (hiddenIds ++ [columnId]) st)
  else st.

Definition showColumn (columnId : string) (st : Service) : Service :=
  let hiddenIds := ids_without columnId (_hiddenColumns st) in
  emit (ColumnToggled columnId true) (set_hiddenColumns hiddenIds st).

(** ** Column locking *)

Inductive LockPosition : Type := lock_left | lock_right.

Definition lockColumn (columnId : string) (position : LockPosition)
    (st : Service) : Service :=
  let locked := _lockedColumns st in
  let l := ids_without columnId (locked_left locked) in
  let r := ids_without columnId (locked_right locked) in
  match position with
  | lock_left =>
      set_lockedColumns {| locked_left := l ++ [columnId]; locked_right := r |} st
  | lock_right =>
      set_lockedColumns {| locked_left := l; locked_right := r ++ [columnId] |} st
  end.

Definition unlockColumn (columnId : string) (st : Service) : Service :=
  let locked := _lockedColumns st in
  set_lockedColumns
    {| locked_left := ids_without columnId (locked_left locked);
       locked_right := ids_without columnId (locked_right locked) |} st.

(** ** Column operations *)

(** [if (col.width)] and [typeof col.width === 'number' ? col.width : 150] *)
Definition width_given (w : option Width) : bool :=
  match w with
  | Some (WidthNum n) => negb (n =? 0)
  | Some (WidthStr s) => negb (String.eqb s "")
  | None => false
  end.

Definition width_pixels (w : option Width) : Z :=
  match w with
  | Some (WidthNum n) => n
  | _ => 150
  end.

Definition initialize (columns : list DynamicColumn)
    (groups : option (list ColumnGroup)) (st : Service) : Service :=
  let st1 := set_columns columns st in
  let st2 := set_columnOrder (List.map col_id columns) st1 in
  let st3 := match groups with
             | Some g => set_columnGroups g st2
             | None => st2
             end in
  (* widths[col.id] = ...: an assignment, which for the name __proto__
     reaches the setter of Object.prototype; that setter ignores a number *)
  let widths :=
    fold_left (λ (w : gmap string Z) col,
                 if width_given (width col) && negb (String.eqb (col_id col) "__proto__")
                 then <[col_id col := width_pixels (width col)]> w
                 else w)
              columns ∅ in
  set_columnWidths widths st3.

(** [l.splice(position, 0, x)] for [0 <= position] *)
Definition splice_in {A} (position : Z) (x : A) (l : list A) : list A :=
  firstn (Z.to_nat position) l ++ x :: skipn (Z.to_nat position) l.

Definition addColumn (column : DynamicColumn) (position : option Z)
    (st : Service) : Service :=
  let columns := _columns st in
  let order := _columnOrder st in
  let inside :=
    match position with
    | Some p => (0 <=? p) && (p <=? Z.of_nat (length columns))
    | None => false
    end in
  let st1 :=
    if inside then
      set_columnOrder (splice_in (default 0 position) (col_id column) order)
        (set_columns (splice_in (default 0 position) column columns) st)
    else
      set_columnOrder (order ++ [col_id column])
        (set_columns (columns ++ [column]) st) in
  if width_given (width column)
  then updateColumnWidth (col_id column) (width_pixels (width column)) st1
  else st1.

Definition removeColumn (columnId : string) (st : Service) : Service :=
  let columns :=
    List.filter (λ col, negb (String.eqb (col_id col) columnId)) (_columns st) in
  let order := ids_without columnId (_columnOrder st) in
  let st1 := set_columns columns st in
  let st2 := set_columnOrder order st1 in
  (* clean up related data *)
  let st3 := removeColumnWidth columnId st2 in
  let st4 := unlockColumn columnId st3 in
  showColumn columnId st4.

(** ** Column grouping *)

Definition addColumnGroup (group : ColumnGroup) (st : Service) : Service :=
  set_columnGroups (_columnGroups st ++ [group]) st.

Definition removeColumnGroup (groupId : string) (st : Service) : Service :=
  set_columnGroups
    (List.filter (λ g, negb (String.eqb (group_id g) groupId)) (_columnGroups st))
    st.

Record GroupedColumns : Type := {
  bucket_group : option ColumnGroup;
  bucket_columns : list DynamicColumn
}.

Definition getGroupedColumns (st : Service) : list GroupedColumns :=
  let groups := _columnGroups st in
  let columns := visibleColumns st in
  (* grouped columns *)
  let grouped :=
    omap (λ group,
            let groupColumns :=
              List.filter (λ col, ids_include (children group) (col_id col))
                          columns in
            if (0 <? length groupColumns)%nat
            then Some {| bucket_group := Some group;
                         bucket_columns := groupColumns |}
            else None)
         groups in
  (* ungrouped columns *)
  let groupedColumnIds := List.flat_map children groups in
  let ungroupedColumns :=
    List.filter (λ col, negb (ids_include groupedColumnIds (col_id col)))
                columns in
  if (0 <? length ungroupedColumns)%nat
  then grouped ++ [{| bucket_group := None; bucket_columns := ungroupedColumns |}]
  else grouped.

(** ** A small layout: two columns gathered in one group *)

Definition plainColumn (name : string) : DynamicColumn :=
  {| col_id := name; header := name; width := Some (WidthNum 120);
     hidden := None |}.

Definition nameGroup : ColumnGroup :=
  {| group_id := "g"; group_header := "Names"; children := ["a"; "b"];
     group_expanded := None |}.

Definition grouped_layout : Service :=
  lockColumn "a" lock_left
    (hideColumn "a"
       (initialize [plainColumn "a"; plainColumn "b"] (Some [nameGroup])
                   new_service)).

(** ** The remaining methods of the column manager *)


Definition isColumnVisible (columnId : string) (st : Service) : bool :=
  negb (ids_include (_hiddenColumns st) columnId).

Definition toggleColumn (columnId : string) (st : Service) : Service :=
  let isHidden := ids_include (_hiddenColumns st) columnId in
  if isHidden then showColumn columnId st else hideColumn columnId st.

(** ['left' | 'right' | false]: [None] is [false]. *)
Definition isColumnLocked (columnId : string) (st : Service) : option LockPosition :=
  let locked := _lockedColumns st in
  if ids_include (locked_left locked) columnId then Some lock_left
  else if ids_include (locked_right locked) columnId then Some lock_right
  else None.

(** [ids.indexOf(id)] *)
Definition indexOf (ids : list string) (id : string) : Z :=
  match findIndex (λ x, String.eqb x id) ids with
  | Some i => Z.of_nat i
  | None => -1
  end.

(** The [forEach] of [reorderColumns]: one event for every entry of
    [newOrder] whose index in [oldOrder] is not its index in [newOrder]. *)
Fixpoint emitReordered (oldOrder : list string) (newIndex : nat)
    (newOrder : list string) (st : Service) : Service :=
  match newOrder with
  | [] => st
  | columnId :: rest =>
      let oldIndex := indexOf oldOrder columnId in
      let st' := if oldIndex =? Z.of_nat newIndex then st
                 else emit (ColumnReordered columnId (Z.of_nat newIndex) oldIndex) st in
      emitReordered oldOrder (S newIndex) rest st'
  end.

Definition reorderColumns (newOrder : list string) (st : Service) : Service :=
  (* validate that all column ids exist *)
  let existingIds := List.map col_id (_columns st) in
  let validOrder := List.filter (λ id, ids_include existingIds id) newOrder in
  (* add any missing columns to the end *)
  let missingIds := List.filter (λ id, negb (ids_include validOrder id)) existingIds in
  let finalOrder := validOrder ++ missingIds in
  let st1 := set_columnOrder finalOrder st in
  (* the order is read back after it has been set *)
  let oldOrder := _columnOrder st1 in
  emitReordered oldOrder 0 newOrder st1.

(** [l.splice(start, 0, x)]: a negative start counts from the end, and the
    start is clamped into [0, l.length]. *)
Definition splice_insert {A} (start : Z) (x : A) (l : list A) : list A :=
  let len := Z.of_nat (length l) in
  let k := if start <? 0 then Z.max (len + start) 0 else Z.min start len in
  take (Z.to_nat k) l ++ x :: drop (Z.to_nat k) l.

Definition moveColumn (columnId : string) (newIndex : Z) (st : Service) : Service :=
  let order := _columnOrder st in
  match findIndex (λ x, String.eqb x columnId) order with
  | None => st
  | Some i =>
      let oldIndex := Z.of_nat i in
      if oldIndex =? newIndex then st else
      (* remove from the old position and insert at the new position *)
      let order1 := delete i order in
      let order2 := splice_insert newIndex columnId order1 in
      emit (ColumnReordered columnId newIndex oldIndex) (set_columnOrder order2 st)
  end.

(** The object of [exportState] and [importState]; the five keys are always
    written by the export, and an array or object is truthy on import. *)
Record LayoutState : Type := {
  columnOrder : option (list string);
  columnWidths : option (gmap string Z);
  lockedColumns : option LockedColumns;
  hiddenColumns : option (list string);
  columnGroups : option (list ColumnGroup)
}.

Definition exportState (st : Service) : LayoutState :=
  {| columnOrder := Some (_columnOrder st);
     columnWidths := Some (_columnWidths st);
     lockedColumns := Some (_lockedColumns st);
     hiddenColumns := Some (_hiddenColumns st);
     columnGroups := Some (_columnGroups st) |}.

Definition importState (state : LayoutState) (st : Service) : Service :=
  let st1 := match columnOrder state with
             | Some o => set_columnOrder o st
             | None => st
             end in
  let st2 := match columnWidths state with
             | Some w => set_columnWidths w st1
             | None => st1
             end in
  let st3 := match lockedColumns state with
             | Some l => set_lockedColumns l st2
             | None => st2
             end in
  let st4 := match hiddenColumns state with
             | Some h => set_hiddenColumns h st3
             | None => st3
             end in
  match columnGroups state with
  | Some g => set_columnGroups g st4
  | None => st4
  end.

Definition reset (st : Service) : Service :=
  set_columnGroups []
    (set_hiddenColumns []
       (set_lockedColumns {| locked_left := []; locked_right := [] |}
          (set_columnWidths ∅
             (set_columnOrder (List.map col_id (_columns st)) st)))).

(** No column is locked on both sides. *)
Definition locksDisjoint (st : Service) : Prop :=
  ∀ x, ¬ (x ∈ locked_left (_lockedColumns st) ∧ x ∈ locked_right (_lockedColumns st)).

End Columns.

(* ===================================================================== *)
(** * SmartFilteringService                                               *)
(* ===================================================================== *)

Module SmartFilter.
Import Js.

(** A field of a row, or the value of a filter: a primitive value or an
    array of primitive values. *)
Inductive FieldValue : Type :=
  | Prim (v : JsValue)
  | Arr (items : list JsValue).

Definition isArray (v : FieldValue) : bool :=
  match v with
  | Arr _ => true
  | Prim _ => false
  end.

(** [v == null] *)
Definition fieldNullish (v : FieldValue) : bool :=
  match v with
  | Prim p => isNullish p
  | Arr _ => false
  end.

(** [items.join(",")]: [null] and [undefined] give the empty string. *)
Fixpoint join (items : list JsValue) : string :=
  match items with
  | [] => ""
  | [x] => if isNullish x then "" else ToString x
  | x :: t => ((if isNullish x then "" else ToString x) ++ "," ++ join t)%string
  end.

(** [String(v)] *)
Definition fieldToString (v : FieldValue) : string :=
  match v with
  | Prim p => ToString p
  | Arr items => join items
  end.

(** [Number(v)] *)
Definition fieldToNumber `{JsHost} (v : FieldValue) : option Z :=
  match v with
  | Prim p => ToNumber p
  | Arr items => StringToNumber (join items)
  end.

Inductive Operator : Type :=
  | equals | contains | startsWith_ | endsWith_ | greaterThan | lessThan
  | between | in_ | notIn | isEmpty | isNotEmpty | regex | custom.

Inductive Condition : Type := and_ | or_.

Record AdvancedFilter : Type := {
  columnId : string;
  operator : Operator;
  value : FieldValue;
  value2 : FieldValue;
  caseSensitive : option bool;
  condition : option Condition
}.

Record GlobalSearchConfig : Type := {
  searchableColumns : list string
}.

Record Service : Type := {
  _advancedFilters : list AdvancedFilter;
  _globalSearch : string;
  _globalSearchConfig : GlobalSearchConfig
}.

Inductive StringOp : Type := op_equals | op_contains | op_startsWith | op_endsWith.

Inductive NumericOp : Type := op_gt | op_lt | op_ge | op_le.

Section Methods.
Context `{JsHost}.

Definition getFieldValue (row : gmap string FieldValue) (fieldPath : string) : FieldValue :=
  default (Prim VUndefined) (row !! fieldPath).

Definition compareValues (v filterValue : FieldValue) (op : StringOp)
    (cs : option bool) : bool :=
  let valueStr := fieldToString v in
  let filterStr := fieldToString filterValue in
  let compareValue :=
    if default false cs then valueStr else toLowerCase valueStr in
  let compareFilter :=
    if default false cs then filterStr else toLowerCase filterStr in
  match op with
  | op_equals => String.eqb compareValue compareFilter
  | op_contains => includes compareValue compareFilter
  | op_startsWith => startsWith compareValue compareFilter
  | op_endsWith => endsWith compareValue compareFilter
  end.

Definition compareNumeric (v filterValue : FieldValue) (op : NumericOp) : bool :=
  let numValue := fieldToNumber v in
  let numFilter := fieldToNumber filterValue in
  match numValue, numFilter with
  | Some _, Some _ =>
      match op with
      | op_gt => num_gt numValue numFilter
      | op_lt => num_lt numValue numFilter
      | op_ge => num_ge numValue numFilter
      | op_le => num_le numValue numFilter
      end
  | _, _ => false
  end.

(** [v === ''] *)
Definition isEmptyString (v : FieldValue) : bool :=
  match v with
  | Prim (VStr s) => String.eqb s ""
  | _ => false
  end.

(** [Array.isArray(v) && v.length === 0] *)
Definition isEmptyArray (v : FieldValue) : bool :=
  match v with
  | Arr [] => true
  | _ => false
  end.

(** The source of [new RegExp(pattern, ...)]: [undefined] is the empty
    pattern, any other value is converted to a string. *)
Definition patternOf (v : FieldValue) : string :=
  match v with
  | Prim VUndefined => ""
  | _ => fieldToString v
  end.

Definition evaluateFilter (row : gmap string FieldValue) (filter : AdvancedFilter) : bool :=
  let v := getFieldValue row (columnId filter) in
  let filterValue := value filter in
  let filterValue2 := value2 filter in
  let cs := caseSensitive filter in
  if fieldNullish v &&
     match operator filter with
     | isEmpty | isNotEmpty => false
     | _ => true
     end
  then false
  else
    match operator filter with
    | equals => compareValues v filterValue op_equals cs
    | contains => compareValues v filterValue op_contains cs
    | startsWith_ => compareValues v filterValue op_startsWith cs
    | endsWith_ => compareValues v filterValue op_endsWith cs
    | greaterThan => compareNumeric v filterValue op_gt
    | lessThan => compareNumeric v filterValue op_lt
    | between =>
        compareNumeric v filterValue op_ge && compareNumeric v filterValue2 op_le
    | in_ =>
        match filterValue with
        | Arr items => existsb (λ x, compareValues v (Prim x) op_equals cs) items
        | Prim _ => false
        end
    | notIn =>
        match filterValue with
        | Arr items =>
            negb (existsb (λ x, compareValues v (Prim x) op_equals cs) items)
        | Prim _ => true
        end
    | isEmpty => fieldNullish v || isEmptyString v || isEmptyArray v
    | isNotEmpty =>
        negb (fieldNullish v) && negb (isEmptyString v) && negb (isEmptyArray v)
    | regex =>
        (* try { new RegExp(...).test(String(value)) } catch { false } *)
        default false
          (RegExp_test (patternOf filterValue) (default false cs) (fieldToString v))
    | custom => true
    end.

Definition isAndFilter (f : AdvancedFilter) : bool :=
  match condition f with
  | None | Some and_ => true
  | Some or_ => false
  end.

Definition isOrFilter (f : AdvancedFilter) : bool :=
  match condition f with
  | Some or_ => true
  | _ => false
  end.

Definition evaluateAdvancedFilters (row : gmap string FieldValue)
    (filters : list AdvancedFilter) : bool :=
  if (length filters =? 0)%nat then true else
  (* group filters by condition *)
  let andFilters := List.filter isAndFilter filters in
  let orFilters := List.filter isOrFilter filters in
  (* all AND filters must pass *)
  let passesAndFilters := forallb (evaluateFilter row) andFilters in
  (* at least one OR filter must pass (if any exist) *)
  let passesOrFilters :=
    (length orFilters =? 0)%nat || existsb (evaluateFilter row) orFilters in
  passesAndFilters && passesOrFilters.

Definition evaluateGlobalSearch (row : gmap string FieldValue) (searchTerm : string)
    (columns : list string) (config : GlobalSearchConfig) : bool :=
  let searchColumns :=
    if (0 <? length (searchableColumns config))%nat
    then List.filter (λ col, existsb (String.eqb col) (searchableColumns config))
                     columns
    else columns in
  let searchLower := toLowerCase searchTerm in
  existsb (λ column,
             let v := getFieldValue row column in
             if fieldNullish v then false
             else includes (toLowerCase (fieldToString v)) searchLower)
          searchColumns.

(** [columns] are the identifiers of the columns handed to the method. *)
Definition applyFilters (data : list (gmap string FieldValue))
    (columns : list string) (st : Service) : list (gmap string FieldValue) :=
  let filters := _advancedFilters st in
  let globalSearch := _globalSearch st in
  let config := _globalSearchConfig st in
  if (length filters =? 0)%nat && String.eqb globalSearch "" then data else
  List.filter
    (λ row,
       let passesAdvancedFilters := evaluateAdvancedFilters row filters in
       let passesGlobalSearch :=
         String.eqb globalSearch "" ||
         evaluateGlobalSearch row globalSearch columns config in
       passesAdvancedFilters && passesGlobalSearch)
    data.

(** ** Managing the filter list *)

#[global] Instance Operator_eq_dec : EqDecision Operator.
Proof. solve_decision. Defined.

Definition set_advancedFilters (f : list AdvancedFilter) (st : Service) : Service :=
  {| _advancedFilters := f; _globalSearch := _globalSearch st;
     _globalSearchConfig := _globalSearchConfig st |}.

(** [f.columnId === columnId && f.operator === operator] *)
Definition sameKey (c : string) (op : Operator) (f : AdvancedFilter) : bool :=
  String.eqb (columnId f) c && bool_decide (operator f = op).

(** [f.columnId === columnId && (!operator || f.operator === operator)] *)
Definition matchesKey (c : string) (op : option Operator) (f : AdvancedFilter) : bool :=
  String.eqb (columnId f) c &&
  match op with
  | Some o => bool_decide (operator f = o)
  | None => true
  end.

Definition addFilter (filter : AdvancedFilter) (st : Service) : Service :=
  let filters := _advancedFilters st in
  match findIndex (sameKey (columnId filter) (operator filter)) filters with
  | Some i => set_advancedFilters (<[i := filter]> filters) st
  | None => set_advancedFilters (filters ++ [filter]) st
  end.

Definition removeFilter (c : string) (op : option Operator) (st : Service) : Service :=
  set_advancedFilters
    (List.filter (λ f, negb (matchesKey c op f)) (_advancedFilters st)) st.

Definition getFilter (c : string) (op : option Operator) (st : Service)
  : option AdvancedFilter :=
  List.find (matchesKey c op) (_advancedFilters st).

Definition getFiltersForColumn (c : string) (st : Service) : list AdvancedFilter :=
  List.filter (λ f, String.eqb (columnId f) c) (_advancedFilters st).

Definition clearColumnFilters (c : string) (st : Service) : Service :=
  set_advancedFilters
    (List.filter (λ f, negb (String.eqb (columnId f) c)) (_advancedFilters st)) st.

Definition clearAllFilters (st : Service) : Service :=
  {| _advancedFilters := []; _globalSearch := "";
     _globalSearchConfig := _globalSearchConfig st |}.

Definition activeFiltersCount (st : Service) : nat :=
  (length (_advancedFilters st)
   + (if (0 <? String.length (_globalSearch st))%nat then 1 else 0))%nat.

Definition hasActiveFilters (st : Service) : bool :=
  (0 <? activeFiltersCount st)%nat.

(** The same filter under another operator. *)
Definition withOperator (op : Operator) (f : AdvancedFilter) : AdvancedFilter :=
  {| columnId := columnId f; operator := op; value := value f;
     value2 := value2 f; caseSensitive := caseSensitive f;
     condition := condition f |}.

(** The keys [(columnId, operator)] of the filter list. *)
Definition filterKeys (st : Service) : list (string * Operator) :=
  (λ f, (columnId f, operator f)) <$> _advancedFilters st.

End Methods.

(** ** A small filter state: one filter on the age *)

Definition ageFilter (op : Operator) (bound : Z) (cond : option Condition)
  : AdvancedFilter :=
  {| columnId := "age"; operator := op; value := Prim (VNum bound);
     value2 := Prim VUndefined; caseSensitive := None; condition := cond |}.

Definition adults_only : Service :=
  {| _advancedFilters := [ageFilter greaterThan 17 None];
     _globalSearch := "";
     _globalSearchConfig := {| searchableColumns := [] |} |}.

Definition person (name : string) (age : Z) : gmap string FieldValue :=
  {[ "name" := Prim (VStr name); "age" := Prim (VNum age) ]}.

End SmartFilter.

(* ===================================================================== *)
(** * Properties of the virtualization window                             *)
(* ===================================================================== *)

Section VirtualizationFacts.
Import Virtualization.

(** C6, as stated, does not hold: for containerHeight=400, itemHeight=40,
    overscan=5, scrollTop=0, totalItems=100 the derived state does not have
    visibleEndIndex=19 (together with visibleStartIndex=0, totalHeight=4000
    and offsetY=0). *)
Lemma scenario_window_end_not_19 :
  ¬ (st_visibleStartIndex (state scenario_window) = 0 ∧
     st_visibleEndIndex (state scenario_window) = 19 ∧
     st_totalHeight (state scenario_window) = 4000%Q ∧
     st_offsetY (state scenario_window) = 0%Q).
Proof.
  intros (_ & Hend & _).
  vm_compute in Hend. discriminate Hend.
Qed.

(** C6 (amended): for containerHeight=400, itemHeight=40, overscan=5,
    scrollTop=0, totalItems=100 the derived state is visibleStartIndex=0,
    visibleItems=10, visibleEndIndex=min(99, 0+10+10)=20, totalHeight=4000
    and offsetY=0. *)
Theorem scenario_window_state :
  state scenario_window =
  {| containerHeight := 400; itemHeight := 40; overscan := 5; scrollTop := 0;
     totalItems := 100;
     st_visibleStartIndex := 0;
     st_visibleEndIndex := 20;
     st_visibleItems := 10;
     st_totalHeight := 4000;
     st_offsetY := 0 |}.
Proof. vm_compute. reflexivity. Qed.

(** The same state is reached from a fresh service by [setTotalItems]. *)
Lemma scenario_window_from_initial :
  setTotalItems 100 initial = scenario_window.
Proof. reflexivity. Qed.

(** A viewport of positive height shows at least one item. *)
Lemma visibleItems_positive (s : Service) :
  (0 < _itemHeight s)%Q → (0 < _containerHeight s)%Q → 1 <= visibleItems s.
Proof.
  intros Hi Hc. unfold visibleItems.
  assert (Hpos : (0 < _containerHeight s / _itemHeight s)%Q).
  { apply Qlt_shift_div_l; [exact Hi|]. now rewrite Qmult_0_l. }
  pose proof (Qle_ceiling (_containerHeight s / _itemHeight s)) as Hle.
  assert (Hz : (inject_Z 0 < inject_Z (Qceiling (_containerHeight s / _itemHeight s)))%Q).
  { eapply Qlt_le_trans; [exact Hpos | exact Hle]. }
  rewrite <- Zlt_Qlt in Hz. lia.
Qed.

Lemma visibleStartIndex_nonneg (s : Service) : 0 <= visibleStartIndex s.
Proof. unfold visibleStartIndex. lia. Qed.

Lemma visibleEndIndex_le_last (s : Service) :
  visibleEndIndex s <= _totalItems s - 1.
Proof. unfold visibleEndIndex. lia. Qed.

(** C7, as stated, does not hold: with no item at all (the state of a fresh
    service) the inputs are valid, visibleStartIndex is 0 and visibleEndIndex
    is -1, so visibleStartIndex <= visibleEndIndex fails. *)
Lemma empty_list_breaks_window_order :
  valid initial ∧
  ¬ (0 <= visibleStartIndex initial ∧
     visibleStartIndex initial <= visibleEndIndex initial ∧
     visibleEndIndex initial <= Z.max (_totalItems initial - 1) 0).
Proof.
  split.
  - unfold valid; cbn. repeat split; try lia; reflexivity || discriminate.
  - intros (_ & Hle & _). vm_compute in Hle. apply Hle. reflexivity.
Qed.

(** The order of the two indices also fails for a non-empty list, once the
    scroll position lies beyond the last item. *)
Lemma scrolled_past_breaks_window_order :
  let s := handleScroll 10000 (setTotalItems 10 initial) in
  valid s ∧ visibleStartIndex s = 245 ∧ visibleEndIndex s = 9.
Proof.
  cbv zeta. split; [|split; vm_compute; reflexivity].
  unfold valid; cbn. repeat split; try lia; reflexivity || discriminate.
Qed.

(** C7 (amended): for all valid inputs, 0 <= visibleStartIndex and
    visibleEndIndex <= totalItems - 1 <= max(totalItems - 1, 0);
    visibleStartIndex <= visibleEndIndex holds exactly when
    visibleStartIndex <= totalItems - 1 (the list is not empty and the scroll
    position is not beyond its last item); and
    visibleEndIndex - visibleStartIndex + 1 >= visibleItems whenever
    totalItems >= visibleStartIndex + visibleItems. *)
Theorem window_bounds (s : Service) :
  valid s →
  0 <= visibleStartIndex s ∧
  visibleEndIndex s <= _totalItems s - 1 ∧
  visibleEndIndex s <= Z.max (_totalItems s - 1) 0 ∧
  (visibleStartIndex s <= visibleEndIndex s ↔
   visibleStartIndex s <= _totalItems s - 1) ∧
  (visibleStartIndex s + visibleItems s <= _totalItems s →
   visibleEndIndex s - visibleStartIndex s + 1 >= visibleItems s).
Proof.
  intros (Htop & Hi & Hc & Ho & Hn).
  pose proof (visibleItems_positive s Hi Hc) as Hv.
  pose proof (visibleStartIndex_nonneg s) as Hs.
  unfold visibleEndIndex.
  repeat split; lia.
Qed.

Lemma window_bounds_witness :
  valid scenario_window ∧
  0 <= visibleStartIndex scenario_window ∧
  visibleEndIndex scenario_window <= _totalItems scenario_window - 1 ∧
  visibleEndIndex scenario_window <= Z.max (_totalItems scenario_window - 1) 0 ∧
  (visibleStartIndex scenario_window <= visibleEndIndex scenario_window ↔
   visibleStartIndex scenario_window <= _totalItems scenario_window - 1) ∧
  (visibleStartIndex scenario_window + visibleItems scenario_window
     <= _totalItems scenario_window →
   visibleEndIndex scenario_window - visibleStartIndex scenario_window + 1
     >= visibleItems scenario_window).
Proof.
  assert (Hvalid : valid scenario_window).
  { unfold valid; cbn. repeat split; try lia; reflexivity || discriminate. }
  split; [exact Hvalid | exact (window_bounds scenario_window Hvalid)].
Defined.

End VirtualizationFacts.

(* ===================================================================== *)
(** * Properties of the grid pipeline                                     *)
(* ===================================================================== *)

Section GridFacts.
Import Js Grid.
Context `{JsHost} `{JsonHost}.

(** The stages of the scenario that run before the totals are written: the
    two sortBy calls give the sort list age ascending, id ascending, under
    which the rows come out in the order id:2, id:3, id:1; under the filter
    (age, greaterThan, 25) only the record with id:1 is left. *)
Lemma scenario_stages :
  let sorted := sortBy "id" (Some asc) (sortBy "age" (Some asc) scenario_grid) in
  let filtered := setFilter "age" (VNum 25) (Some "greaterThan") scenario_grid in
  _sort sorted = [ {| sort_columnId := "age"; direction := asc |};
                   {| sort_columnId := "id"; direction := asc |} ] ∧
  row_id <$> filteredSorted sorted = [VNum 2; VNum 3; VNum 1] ∧
  _filters filtered = [ {| filter_columnId := "age"; filter_value := VNum 25;
                           operator := Some "greaterThan" |} ] ∧
  row_data <$> filteredSorted filtered = [record1].
Proof. vm_compute. repeat split; reflexivity. Qed.

(** C1: the scenario as the code runs it.  For the records
    [{id:1,age:30},{id:2,age:25},{id:3,age:25}] with the plain columns 'id'
    and 'age', the read of the processed rows throws NG0600, after the sort
    by age and id as well as under the filter (age, greaterThan, 25): the
    computed body writes the pagination totals.  No rows are returned, and
    totalItems and totalPages are still 0 after the read, not 1. *)
Theorem scenario_read_throws :
  let sorted := sortBy "id" (Some asc) (sortBy "age" (Some asc) scenario_grid) in
  let filtered := setFilter "age" (VNum 25) (Some "greaterThan") scenario_grid in
  processedRows sorted = Thrown NG0600 ∧
  processedRows filtered = Thrown NG0600 ∧
  totalItems (_pagination (afterRead filtered)) = 0 ∧
  totalPages (_pagination (afterRead filtered)) = 0.
Proof. repeat split. Qed.

(** ** Pagination *)

(** A page cut by [slice] is a [take] after a [drop]. *)
Lemma slice_page {A} (l : list A) (ps : Z) (i : nat) :
  1 <= ps →
  slice (Z.of_nat i * ps) (Z.of_nat i * ps + ps) l =
  take (Z.to_nat ps) (drop (i * Z.to_nat ps) l).
Proof.
  intros Hps. unfold slice.
  set (len := Z.of_nat (length l)).
  assert (Hstart : 0 <= Z.of_nat i * ps) by nia.
  destruct (Z.ltb_spec (Z.of_nat i * ps) 0) as [?|_]; [lia|].
  destruct (Z.ltb_spec (Z.of_nat i * ps + ps) 0) as [?|_]; [lia|].
  assert (Hnat : (i * Z.to_nat ps)%nat = Z.to_nat (Z.of_nat i * ps)) by nia.
  rewrite Hnat.
  destruct (Z.le_gt_cases len (Z.of_nat i * ps)) as [Hout|Hin].
  - (* the page starts beyond the last row *)
    rewrite (drop_ge l (Z.to_nat (Z.of_nat i * ps))) by (subst len; lia).
    rewrite (drop_ge l (Z.to_nat (Z.min (Z.of_nat i * ps) len)))
      by (subst len; lia).
    now rewrite !take_nil.
  - replace (Z.min (Z.of_nat i * ps) len) with (Z.of_nat i * ps) by lia.
    destruct (Z.le_gt_cases (Z.of_nat i * ps + ps) len) as [Hfull|Hpart].
    + f_equal. lia.
    + (* the last, shorter page *)
      rewrite !take_ge; [reflexivity | |]; rewrite length_drop; subst len; lia.
Qed.

Lemma pageNumbers_S (k : nat) :
  pageNumbers (Z.of_nat (S k)) = pageNumbers (Z.of_nat k) ++ [Z.of_nat (S k)].
Proof.
  unfold pageNumbers. rewrite !Nat2Z.id, seq_S, fmap_app. reflexivity.
Qed.

(** The first [k] pages, one after the other, are the first [k * pageSize]
    rows. *)
Lemma pages_concat {A} (l : list A) (ps : Z) (k : nat) :
  1 <= ps →
  concat ((λ page, slice ((page - 1) * ps) ((page - 1) * ps + ps) l) <$>
          pageNumbers (Z.of_nat k)) =
  take (k * Z.to_nat ps) l.
Proof.
  intros Hps. induction k as [|k IH].
  - reflexivity.
  - rewrite pageNumbers_S, fmap_app, concat_app, IH. cbn [fmap list_fmap concat].
    rewrite app_nil_r.
    replace (Z.of_nat (S k) - 1) with (Z.of_nat k) by lia.
    rewrite slice_page by exact Hps.
    rewrite take_take_drop. f_equal. lia.
Qed.

Lemma ceil_div_covers (n ps : Z) :
  0 <= n → 1 <= ps → 0 <= ceil_div n ps ∧ n <= ceil_div n ps * ps.
Proof.
  intros Hn Hps. unfold ceil_div.
  pose proof (Z.mul_div_le (- n) ps ltac:(lia)) as Hle.
  assert (Hneg : - n / ps <= 0) by (apply Z.div_le_upper_bound; lia).
  split; nia.
Qed.

Lemma setPage_in_range (st : Service) (page : Z) :
  1 <= page <= totalPages (_pagination st) →
  setPage page st = set_pagination (with_currentPage page (_pagination st)) st.
Proof.
  intros [Hlo Hhi]. unfold setPage.
  destruct (Z.leb_spec 1 page); [|lia].
  destruct (Z.leb_spec page (totalPages (_pagination st))); [|lia].
  reflexivity.
Qed.

Lemma pageNumbers_range (n page : Z) :
  page ∈ pageNumbers n → 1 <= page <= n.
Proof.
  unfold pageNumbers. intros Hin.
  apply list_elem_of_fmap in Hin as (i & -> & Hi).
  apply elem_of_seq in Hi. lia.
Qed.

(** C2: paging as the code runs it.  With the three records of the
    scenario, pagination enabled and pageSize 2, the read of the processed
    rows throws NG0600 instead of returning the first page; totalPages is
    still 0 after the read, not 2, and so setPage(2), which is guarded by
    page <= totalPages, leaves the service on page 1. *)
Theorem paged_read_throws :
  let paged := setPageSize 2 scenario_grid in
  enabled (enablePagination (_options paged)) = true ∧
  pageSize (_pagination paged) = 2 ∧
  processedRows paged = Thrown NG0600 ∧
  totalPages (_pagination (afterRead paged)) = 0 ∧
  setPage 2 (afterRead paged) = afterRead paged ∧
  currentPage (_pagination (setPage 2 (afterRead paged))) = 1.
Proof. repeat split. Qed.

(** ** Row identity *)

Lemma mapi_from_lookup {A B} (f : A → nat → B) (l : list A) (k i : nat) :
  mapi_from k f l !! i = (λ x, f x (k + i)%nat) <$> l !! i.
Proof.
  revert k i. induction l as [|x l IH]; intros k [|i]; cbn; try reflexivity.
  - now rewrite Nat.add_0_r.
  - rewrite IH. now replace (S k + i)%nat with (k + S i)%nat by lia.
Qed.

Lemma mapi_from_fmap {A B C} (g : B → C) (f : A → nat → B) (l : list A) (k : nat) :
  g <$> mapi_from k f l = mapi_from k (λ x i, g (f x i)) l.
Proof.
  revert k. induction l as [|x l IH]; intros k; cbn; [reflexivity|].
  now rewrite <- IH.
Qed.

Lemma mapi_from_length {A B} (f : A → nat → B) (l : list A) (k : nat) :
  length (mapi_from k f l) = length l.
Proof. revert k. induction l as [|x l IH]; intros k; cbn; [|rewrite IH]; reflexivity. Qed.

(** The identifiers of the rows are read off the records alone. *)
Lemma row_ids_of_data (st : Service) :
  row_id <$> rows st = mapi getRowId (_data st).
Proof. unfold rows, mapi. now rewrite mapi_from_fmap. Qed.

Lemma row_ids_lookup (st : Service) (i : nat) :
  (row_id <$> rows st) !! i = (λ item, getRowId item i) <$> _data st !! i.
Proof. rewrite row_ids_of_data. unfold mapi. now rewrite mapi_from_lookup. Qed.

Lemma rows_length (st : Service) : length (rows st) = length (_data st).
Proof. unfold rows, mapi. apply mapi_from_length. Qed.

(** [id], [_id], [uuid] in that order, then the position. *)
Lemma getRowId_order (item : gmap string JsValue) (index : nat) :
  getRowId item index =
  if negb (isNullish (getProp item "id")) then getProp item "id"
  else if negb (isNullish (getProp item "_id")) then getProp item "_id"
  else if negb (isNullish (getProp item "uuid")) then getProp item "uuid"
  else VNum (Z.of_nat index).
Proof.
  unfold getRowId, coalesce.
  destruct (getProp item "id"), (getProp item "_id"), (getProp item "uuid");
    reflexivity.
Qed.

Lemma getRowId_declared (item : gmap string JsValue) (index : nat) :
  getRowId item index =
  if isNullish (declaredId item) then VNum (Z.of_nat index) else declaredId item.
Proof. reflexivity. Qed.

(** C5, as stated, does not hold: two records that carry the same [id], and
    a record whose [id] is the position of a record without any identity
    field, both give two rows with one identifier. *)
Lemma row_ids_can_collide :
  ¬ NoDup (row_id <$> rows (set_data [ {[ "id" := VNum 1 ]};
                                       {[ "id" := VNum 1 ]} ] new_service)) ∧
  ¬ NoDup (row_id <$> rows (set_data [ {[ "id" := VNum 1 ]};
                                       {[ "name" := VStr "b" ]} ] new_service)).
Proof.
  split; intros Hnd; vm_compute in Hnd;
    apply NoDup_cons in Hnd as [Hnotin _]; apply Hnotin; left.
Qed.

(** C5 (amended): each row identifier is resolved by preferring the record
    fields id, _id, uuid in that order and falling back to the positional
    index; within one recomputation of the rows view the identifiers are
    pairwise distinct provided the identities that the records declare are
    pairwise distinct and none of them equals the positional index of a
    record that declares none. *)
Theorem row_ids_unique (st : Service) :
  (∀ i j a b, i ≠ j → _data st !! i = Some a → _data st !! j = Some b →
     isNullish (declaredId a) = false → isNullish (declaredId b) = false →
     declaredId a ≠ declaredId b) →
  (∀ i j a b, _data st !! i = Some a → _data st !! j = Some b →
     isNullish (declaredId a) = false → isNullish (declaredId b) = true →
     declaredId a ≠ VNum (Z.of_nat j)) →
  NoDup (row_id <$> rows st) ∧
  (∀ i item, _data st !! i = Some item →
     (row_id <$> rows st) !! i =
     Some (if negb (isNullish (getProp item "id")) then getProp item "id"
           else if negb (isNullish (getProp item "_id")) then getProp item "_id"
           else if negb (isNullish (getProp item "uuid")) then getProp item "uuid"
           else VNum (Z.of_nat i))).
Proof.
  intros Hdeclared Hindex. split.
  - apply NoDup_alt. intros i j x Hi Hj.
    rewrite row_ids_lookup in Hi, Hj.
    destruct (_data st !! i) as [a|] eqn:Ha; [|discriminate].
    destruct (_data st !! j) as [b|] eqn:Hb; [|discriminate].
    cbn in Hi, Hj. injection Hi as Hi. injection Hj as Hj.
    rewrite getRowId_declared in Hi, Hj.
    destruct (decide (i = j)) as [|Hne]; [assumption | exfalso].
    destruct (isNullish (declaredId a)) eqn:Na, (isNullish (declaredId b)) eqn:Nb.
    + subst x. injection Hj as Hj. lia.
    + apply (Hindex j i b a Hb Ha Nb Na). congruence.
    + apply (Hindex i j a b Ha Hb Na Nb). congruence.
    + apply (Hdeclared i j a b Hne Ha Hb Na Nb). congruence.
  - intros i item Hitem.
    rewrite row_ids_lookup, Hitem. cbn. now rewrite getRowId_order.
Qed.

(** ** Selection *)

Lemma array_includes_spec (l : list JsValue) (x : JsValue) :
  array_includes l x = true ↔ x ∈ l.
Proof.
  unfold array_includes. rewrite existsb_exists. split.
  - intros (y & Hin & Heq). apply bool_decide_eq_true in Heq. subst y.
    now apply list_elem_of_In.
  - intros Hin. exists x. split; [now apply list_elem_of_In|].
    now apply bool_decide_eq_true.
Qed.

Lemma row_ids_set_selection (sel : GridSelection) (st : Service) :
  List.map row_id (rows (set_selection sel st)) = List.map row_id (rows st).
Proof.
  change (row_id <$> rows (set_selection sel st) = row_id <$> rows st).
  now rewrite !row_ids_of_data.
Qed.

(** The test of [selectRow], [allRowIds.every(id => selectedIds.includes(id))],
    says that [selectedIds] holds every row identifier. *)
Lemma every_id_included (ids : list JsValue) (rws : list GridRow) :
  forallb (λ id, array_includes ids id) (List.map row_id rws) = true ↔
  (∀ r, r ∈ rws → row_id r ∈ ids).
Proof.
  rewrite forallb_forall. split.
  - intros Hall r Hr. apply array_includes_spec, Hall, in_map.
    now apply list_elem_of_In.
  - intros Hall x Hx. apply in_map_iff in Hx as (r & <- & Hr).
    apply array_includes_spec, Hall. now apply list_elem_of_In.
Qed.

Lemma holdsEveryRowId_set_selection (sel : GridSelection) (st : Service) :
  holdsEveryRowId (set_selection sel st) ↔
  forallb (λ id, array_includes (selectedIds sel) id) (List.map row_id (rows st)) = true.
Proof.
  rewrite <- (row_ids_set_selection sel st). symmetry. apply every_id_included.
Qed.

(** The two flags as [selectRow] recomputes them agree with [selectedIds],
    whatever the branch taken before. *)
Lemma recomputed_flags_agree (st : Service) (m : SelectionMode)
    (rows1 : list GridRow) (ids1 : list JsValue) :
  let allRowIds := List.map row_id (rows st) in
  let all := (0 <? length allRowIds)%nat &&
             forallb (λ id, array_includes ids1 id) allRowIds in
  let indet := (0 <? length ids1)%nat && negb all in
  selectionInvariant
    (set_selection {| mode := m; selectedRows := rows1; selectedIds := ids1;
                      selectAll := all; indeterminate := indet |} st).
Proof.
  intros allRowIds all indet. split.
  - unfold indeterminateAgrees. cbn. subst indet.
    rewrite andb_true_iff, negb_true_iff, Nat.ltb_lt.
    destruct ids1; cbn; split; intros [? ?]; split; auto; try lia; congruence.
  - intros Hdata. cbn in Hdata. unfold selectAllAgrees.
    rewrite holdsEveryRowId_set_selection. cbn. subst all.
    assert (Hlen : (0 <? length allRowIds)%nat = true).
    { apply Nat.ltb_lt. subst allRowIds. rewrite length_map, rows_length.
      destruct (_data st); [congruence | cbn; lia]. }
    now rewrite Hlen.
Qed.

Lemma selectRow_invariant (rowId : JsValue) (sel : bool) (st : Service) :
  mode (_selection st) ≠ none → selectionInvariant (selectRow rowId sel st).
Proof.
  intros Hmode. unfold selectRow.
  destruct (mode (_selection st)) eqn:Em; [| |congruence].
  - destruct sel; apply recomputed_flags_agree.
  - destruct sel; [destruct (negb (array_includes _ _))|];
      apply recomputed_flags_agree.
Qed.

Lemma selectAllRows_invariant (sel : bool) (st : Service) :
  selectionInvariant st → selectionInvariant (selectAllRows sel st).
Proof.
  intros Hinv. unfold selectAllRows.
  destruct (mode (_selection st)); [exact Hinv | | exact Hinv].
  destruct sel; split.
  - unfold indeterminateAgrees; cbn. split; [discriminate | intros [_ ?]; discriminate].
  - intros _. unfold selectAllAgrees.
    rewrite holdsEveryRowId_set_selection. cbn. split; [intros _ | reflexivity].
    apply every_id_included. intros r Hr.
    apply list_elem_of_In, in_map, list_elem_of_In. exact Hr.
  - unfold indeterminateAgrees; cbn. split; [discriminate | intros [? _]; congruence].
  - intros Hdata. unfold selectAllAgrees.
    rewrite holdsEveryRowId_set_selection. cbn. split; [discriminate|].
    intros Hall. exfalso.
    pose proof (rows_length st) as Hlen.
    destruct (rows st) as [|r rs]; cbn in *.
    + destruct (_data st); [congruence | discriminate].
    + discriminate.
Qed.

Ltac same_mode Em := cbn; first [reflexivity | exact Em | rewrite Em; reflexivity].

Lemma call_mode (c : SelectionCall) (st : Service) :
  mode (_selection (call c st)) = mode (_selection st).
Proof.
  destruct c as [rowId sel | sel]; cbn.
  - unfold selectRow. destruct (mode (_selection st)) eqn:Em.
    + destruct sel; same_mode Em.
    + destruct sel; [destruct (negb (array_includes _ _))|]; same_mode Em.
    + same_mode Em.
  - unfold selectAllRows. destruct (mode (_selection st)) eqn:Em.
    + same_mode Em.
    + destruct sel; same_mode Em.
    + same_mode Em.
Qed.

Lemma call_data (c : SelectionCall) (st : Service) :
  _data (call c st) = _data st.
Proof.
  destruct c as [rowId sel | sel]; cbn.
  - unfold selectRow. destruct (mode (_selection st)); try reflexivity.
    + destruct sel; reflexivity.
    + destruct sel; [destruct (negb (array_includes _ _))|]; reflexivity.
  - unfold selectAllRows. destruct (mode (_selection st)); try reflexivity.
    destruct sel; reflexivity.
Qed.

Lemma call_invariant (c : SelectionCall) (st : Service) :
  mode (_selection st) ≠ none →
  selectionInvariant st → selectionInvariant (call c st).
Proof.
  intros Hmode Hinv. destruct c as [rowId sel | sel]; cbn.
  - now apply selectRow_invariant.
  - now apply selectAllRows_invariant.
Qed.

Lemma callAll_invariant (calls : list SelectionCall) (st : Service) :
  mode (_selection st) ≠ none →
  selectionInvariant st →
  selectionInvariant (callAll calls st) ∧ _data (callAll calls st) = _data st.
Proof.
  revert st. induction calls as [|c calls IH]; intros st Hmode Hinv; cbn.
  - split; [exact Hinv | reflexivity].
  - destruct (IH (call c st)) as [Hfinal Hdata].
    + now rewrite call_mode.
    + now apply call_invariant.
    + split; [exact Hfinal|]. unfold callAll in Hdata. cbn. rewrite Hdata.
      apply call_data.
Qed.

Lemma callAll_mode (calls : list SelectionCall) (st : Service) :
  mode (_selection (callAll calls st)) = mode (_selection st).
Proof.
  revert st. induction calls as [|c calls IH]; intros st; [reflexivity|].
  cbn. unfold callAll in IH. now rewrite IH, call_mode.
Qed.

(** The guard [allRowIds.length > 0] of [selectRow]. *)
Lemma selectRow_without_rows (rowId : JsValue) (sel : bool) (st : Service) :
  mode (_selection st) ≠ none → _data st = [] →
  selectAll (_selection (selectRow rowId sel st)) = false.
Proof.
  intros Hmode Hdata. unfold selectRow, rows. rewrite Hdata.
  destruct (mode (_selection st)); [| |congruence].
  - destruct sel; reflexivity.
  - destruct sel; [destruct (negb (array_includes _ _))|]; reflexivity.
Qed.

Lemma fresh_invariant (st : Service) :
  freshSelection st → selectionInvariant st.
Proof.
  intros (Hids & Hall & Hind). split.
  - unfold indeterminateAgrees. rewrite Hids, Hind.
    split; [discriminate | intros [? _]; congruence].
  - intros Hdata. unfold selectAllAgrees, holdsEveryRowId.
    rewrite Hall, Hids. split; [discriminate|].
    intros Hevery. exfalso.
    pose proof (rows_length st) as Hlen.
    destruct (rows st) as [|r rs].
    + destruct (_data st); [congruence | discriminate].
    + specialize (Hevery r ltac:(left)). inversion Hevery.
Qed.

(** C3, as stated, does not hold: on an empty data set, in 'multiple' mode,
    [selectRow(5)] leaves selectAll false although selectedIds holds the
    identifier of every row (there is none); on the same state
    [selectAllRows(true)] sets selectAll to true. *)
Lemma selectAll_disagrees_without_rows :
  let st0 := initialize (H0 := sampleJsonHost) [] scenario_columns
               {| enableSorting := None; enableFiltering := None;
                  enablePagination := None; enableSelection := None;
                  multiSort := None; selectionMode := Some multiple;
                  opt_pageSize := None; opt_pageSizeOptions := None;
                  persistState := None; stateKey := None; debounceMs := None |}
               new_service in
  let st := callAll [CallSelectRow (VNum 5) true] st0 in
  freshSelection st0 ∧ mode (_selection st0) = multiple ∧
  ¬ selectAllAgrees st ∧
  selectAll (_selection (callAll [CallSelectAllRows true] st0)) = true.
Proof.
  cbv zeta. split; [|split; [|split]].
  - repeat split.
  - reflexivity.
  - unfold selectAllAgrees. intros [_ Hback].
    assert (Hfalse : false = true); [|discriminate Hfalse].
    apply Hback. intros r Hr. vm_compute in Hr. inversion Hr.
  - reflexivity.
Qed.

(** C3 (amended): starting from an empty selection in 'single' or 'multiple'
    mode, after every finite sequence of selectRow and selectAllRows calls
    (also with ids that belong to no row) indeterminate is true if and only
    if selectedIds is non-empty and selectAll is false; and, when the row set
    is not empty, selectAll is true if and only if selectedIds contains the
    id of every row of the full unfiltered row set. *)
Theorem selection_invariant (st0 : Service) (calls : list SelectionCall) :
  freshSelection st0 →
  mode (_selection st0) = single ∨ mode (_selection st0) = multiple →
  indeterminateAgrees (callAll calls st0) ∧
  (rows st0 ≠ [] → selectAllAgrees (callAll calls st0)) ∧
  (rows st0 = [] → ∀ rowId sel,
     selectAll (_selection (callAll (calls ++ [CallSelectRow rowId sel]) st0))
     = false).
Proof.
  intros Hfresh Hmode.
  assert (Hsome : mode (_selection st0) ≠ none)
    by (destruct Hmode as [-> | ->]; discriminate).
  destruct (callAll_invariant calls st0) as [[Hind Hall] Hdata];
    [exact Hsome | now apply fresh_invariant |].
  split; [exact Hind|]. split.
  - intros Hrows. apply Hall. rewrite Hdata.
    intros Hnil. apply Hrows. unfold rows. now rewrite Hnil.
  - intros Hrows rowId sel.
    unfold callAll. rewrite fold_left_app. cbn [fold_left call].
    fold (callAll calls st0).
    apply selectRow_without_rows.
    + now rewrite callAll_mode.
    + pose proof (rows_length st0) as Hlen. rewrite Hrows in Hlen.
      rewrite Hdata. destruct (_data st0); [reflexivity | discriminate].
Qed.

(** ** Import of a persisted state *)

(** C9: when the input is not valid JSON ([JSON.parse] throws),
    [importState] leaves the whole state (sort, filters, pagination,
    selection and every other signal) unchanged; no signal is written. *)
Theorem importState_invalid_json (st : Service) (stateJson : string) :
  JSON_parse stateJson = None → importState stateJson st = st.
Proof. intros Hthrow. unfold importState. now rewrite Hthrow. Qed.

(** The other failure of the [try] block, a property read on [null], is
    caught in the same way. *)
Lemma importState_null (st : Service) (stateJson : string) :
  JSON_parse stateJson = Some ParsedNull → importState stateJson st = st.
Proof. intros Hnull. unfold importState. now rewrite Hnull. Qed.

(** ** The default filter on missing cells *)

Lemma defaultFilter_nullish (value filterValue : JsValue) (op : string) :
  isNullish value = true → defaultFilter value filterValue op = false.
Proof. intros Hnull. unfold defaultFilter. now rewrite Hnull. Qed.

(** C10: for every operator (equals, contains, startsWith, endsWith,
    greaterThan, lessThan or any other string) and every filter value, the
    default filter predicate is false on a null or undefined cell value;
    hence a row whose cell for a filtered column is null or undefined, the
    column having no custom filterFn, is excluded by any active filter on
    that column. *)
Theorem nullish_cell_excluded :
  (∀ value filterValue op,
     isNullish value = true → defaultFilter value filterValue op = false) ∧
  (∀ st rws row filter column,
     filter ∈ _filters st →
     List.find (λ c, String.eqb (col_id c) (filter_columnId filter)) (_columns st)
       = Some column →
     filterFn column = None →
     isNullish (getCellValue (row_data row) column) = true →
     row ∉ applyFilters st rws).
Proof.
  split; [exact defaultFilter_nullish|].
  intros st rws row filter column Hfilter Hcolumn Hfn Hnull Hin.
  unfold applyFilters in Hin.
  destruct (_filters st) as [|f fs] eqn:Ef; [inversion Hfilter|].
  cbn [length Nat.eqb] in Hin.
  apply list_elem_of_In, filter_In in Hin as [_ Hall].
  rewrite forallb_forall in Hall.
  specialize (Hall filter ltac:(now apply list_elem_of_In)).
  unfold passesFilter in Hall.
  rewrite Hcolumn, Hfn, defaultFilter_nullish in Hall by exact Hnull.
  discriminate Hall.
Qed.

End GridFacts.

(** ** The properties at concrete inputs *)

Section GridExamples.
Import Js Grid.
#[local] Existing Instance sampleHost.
#[local] Existing Instance sampleJsonHost.

Lemma row_ids_unique_witness :
  NoDup (row_id <$> rows (set_data [ {[ "id" := VNum 7 ]};
                                     {[ "name" := VStr "b" ]};
                                     {[ "uuid" := VStr "x" ]} ] new_service)).
Proof.
  apply row_ids_unique.
  - intros [|[|[|i]]] [|[|[|j]]] a b Hne Ha Hb Na Nb;
      cbn in Ha, Hb; try discriminate; try congruence;
      injection Ha as <-; injection Hb as <-;
      vm_compute in Na, Nb; try discriminate; vm_compute; discriminate.
  - intros [|[|[|i]]] [|[|[|j]]] a b Ha Hb Na Nb;
      cbn in Ha, Hb; try discriminate;
      injection Ha as <-; injection Hb as <-;
      vm_compute in Na, Nb; try discriminate; vm_compute; discriminate.
Defined.

Lemma selection_invariant_witness :
  let st0 := initialize scenario_records scenario_columns
               {| enableSorting := None; enableFiltering := None;
                  enablePagination := None; enableSelection := None;
                  multiSort := None; selectionMode := Some multiple;
                  opt_pageSize := None; opt_pageSizeOptions := None;
                  persistState := None; stateKey := None; debounceMs := None |}
               new_service in
  let calls := [CallSelectRow (VNum 2) true; CallSelectRow (VNum 99) true;
                CallSelectAllRows true; CallSelectRow (VNum 3) false] in
  indeterminate (_selection (callAll calls st0)) = true ∧
  indeterminateAgrees (callAll calls st0) ∧
  selectAllAgrees (callAll calls st0).
Proof.
  cbv zeta.
  match goal with
  | |- _ ∧ indeterminateAgrees (callAll ?calls ?st0) ∧ _ =>
      destruct (selection_invariant st0 calls) as (Hind & Hall & _)
  end.
  - repeat split.
  - right. reflexivity.
  - split; [reflexivity|]. split; [exact Hind|].
    apply Hall. vm_compute. discriminate.
Defined.

Lemma importState_invalid_json_witness :
  JSON_parse "{sort:" = None ∧ importState "{sort:" scenario_grid = scenario_grid.
Proof.
  split; [reflexivity|].
  apply importState_invalid_json. reflexivity.
Defined.

Lemma nullish_cell_excluded_witness :
  let st := setFilter "age" (VNum 2) None
              (initialize [ {[ "id" := VNum 4 ]} ] scenario_columns noOptions
                          new_service) in
  defaultFilter VUndefined (VNum 2) "contains" = false ∧
  (∀ row, row ∈ rows st → row ∉ applyFilters st (rows st)).
Proof.
  cbv zeta. destruct nullish_cell_excluded as [Hdefault Hrow].
  split; [now apply Hdefault|].
  intros row Hin.
  apply (Hrow _ (rows _) row
           {| filter_columnId := "age"; filter_value := VNum 2;
              operator := Some "contains" |}
           (plainColumn "age")).
  - left.
  - reflexivity.
  - reflexivity.
  - vm_compute in Hin. inversion Hin as [|? ? ? Hnil]; subst; [reflexivity|].
    inversion Hnil.
Defined.

End GridExamples.

(* ===================================================================== *)
(** * Properties of the column manager                                    *)
(* ===================================================================== *)

Section ColumnFacts.
Import Js Columns.

Lemma ids_without_spec (id x : string) (ids : list string) :
  x ∈ ids_without id ids ↔ x ∈ ids ∧ x ≠ id.
Proof.
  unfold ids_without. rewrite list_elem_of_In, filter_In, <- list_elem_of_In.
  rewrite negb_true_iff, String.eqb_neq. reflexivity.
Qed.

Lemma ids_without_purged (id : string) (ids : list string) :
  id ∉ ids_without id ids.
Proof. rewrite ids_without_spec. intros [_ Hne]. now apply Hne. Qed.

Lemma orderedColumns_known (st : Service) (c : DynamicColumn) :
  c ∈ orderedColumns st → c ∈ _columns st.
Proof.
  unfold orderedColumns.
  destruct (length (_columnOrder st) =? 0)%nat; [trivial|].
  rewrite elem_of_app, list_elem_of_omap. intros [(id & _ & Hfind) | Hrest].
  - apply find_some in Hfind as [Hin _]. now apply list_elem_of_In.
  - apply list_elem_of_In, filter_In in Hrest as [Hin _].
    now apply list_elem_of_In.
Qed.

Lemma visibleColumns_known (st : Service) (c : DynamicColumn) :
  c ∈ visibleColumns st → c ∈ _columns st.
Proof.
  unfold visibleColumns. intros Hin.
  apply list_elem_of_In, filter_In in Hin as [Hin _].
  now apply orderedColumns_known, list_elem_of_In.
Qed.

(** Every column of every bucket is a visible column. *)
Lemma getGroupedColumns_visible (st : Service) (bucket : GroupedColumns)
    (c : DynamicColumn) :
  bucket ∈ getGroupedColumns st → c ∈ bucket_columns bucket →
  c ∈ visibleColumns st.
Proof.
  unfold getGroupedColumns. intros Hbucket Hc.
  assert (Hgrouped : ∀ b,
    b ∈ omap (λ group,
                let groupColumns :=
                  List.filter (λ col, ids_include (children group) (col_id col))
                              (visibleColumns st) in
                if (0 <? length groupColumns)%nat
                then Some {| bucket_group := Some group;
                             bucket_columns := groupColumns |}
                else None) (_columnGroups st) →
    c ∈ bucket_columns b → c ∈ visibleColumns st).
  { intros b Hb Hcb. apply list_elem_of_omap in Hb as (g & _ & Hsome).
    cbv zeta in Hsome.
    match type of Hsome with
    | (if ?test then _ else _) = _ => destruct test; [|discriminate]
    end.
    injection Hsome as <-. cbn in Hcb.
    apply list_elem_of_In, filter_In in Hcb as [Hin _].
    now apply list_elem_of_In. }
  match type of Hbucket with
  | _ ∈ (if ?test then _ else _) => destruct test
  end.
  - apply elem_of_app in Hbucket as [Hb | Hlast].
    + now apply (Hgrouped bucket).
    + apply list_elem_of_singleton in Hlast. subst bucket. cbn in Hc.
      apply list_elem_of_In, filter_In in Hc as [Hin _].
      now apply list_elem_of_In.
  - now apply (Hgrouped bucket).
Qed.

Lemma removeColumn_columns (id : string) (st : Service) (c : DynamicColumn) :
  c ∈ _columns (removeColumn id st) → col_id c ≠ id.
Proof.
  cbn. intros Hin. apply list_elem_of_In, filter_In in Hin as [_ Hne].
  now apply negb_true_iff, String.eqb_neq in Hne.
Qed.

(** C8: removeColumn at work on the small layout (columns a and b, both
    children of the group g).  After removeColumn(a) the identifier a is
    still a child of g: the clean-up of the method reaches the widths, the
    locks and the hidden list, not the groups.  The stale child is what
    columnGroups and exportState hand out, and a column added again under
    the identifier a is shown in the old group at once. *)
Theorem removeColumn_keeps_group_children :
  let after := removeColumn "a" grouped_layout in
  "a" ∈ col_id <$> _columns grouped_layout ∧
  children <$> _columnGroups after = [["a"; "b"]] ∧
  ¬ (∀ g, g ∈ _columnGroups after → "a" ∉ children g) ∧
  columnGroups (exportState after) = Some [nameGroup] ∧
  getGroupedColumns (addColumn (plainColumn "a") None after)
  = [{| bucket_group := Some nameGroup;
        bucket_columns := [plainColumn "b"; plainColumn "a"] |}].
Proof.
  cbv zeta. split; [vm_compute; left|]. split; [reflexivity|].
  split; [|split; reflexivity].
  intros Hpurged. apply (Hpurged nameGroup).
  - vm_compute. left.
  - vm_compute. left.
Qed.

(** X33: for every state of the column manager and every column id, after
    removeColumn(id) the id no longer appears in the column list, the order
    list, the keys of the width map, the locked-left list, the locked-right
    list or the hidden list, nor in any bucket returned by
    getGroupedColumns. *)
Theorem removeColumn_purges (st : Service) (id : string) :
  (id ∉ col_id <$> _columns (removeColumn id st)) ∧
  (id ∉ _columnOrder (removeColumn id st)) ∧
  _columnWidths (removeColumn id st) !! id = None ∧
  (id ∉ locked_left (_lockedColumns (removeColumn id st))) ∧
  (id ∉ locked_right (_lockedColumns (removeColumn id st))) ∧
  (id ∉ _hiddenColumns (removeColumn id st)) ∧
  (∀ bucket, bucket ∈ getGroupedColumns (removeColumn id st) →
             id ∉ col_id <$> bucket_columns bucket).
Proof.
  repeat split.
  - intros Hin. apply list_elem_of_fmap in Hin as (c & Hid & Hc).
    apply removeColumn_columns in Hc. congruence.
  - apply ids_without_purged.
  - cbn. apply lookup_delete_eq.
  - apply ids_without_purged.
  - apply ids_without_purged.
  - apply ids_without_purged.
  - intros bucket Hbucket Hin.
    apply list_elem_of_fmap in Hin as (c & Hid & Hc).
    apply (getGroupedColumns_visible _ bucket c Hbucket) in Hc.
    apply visibleColumns_known, removeColumn_columns in Hc. congruence.
Qed.

(** On the small layout every store of the manager held the column. *)
Lemma grouped_layout_holds_a :
  "a" ∈ _columnOrder grouped_layout ∧
  _columnWidths grouped_layout !! "a" = Some 120 ∧
  "a" ∈ locked_left (_lockedColumns grouped_layout) ∧
  "a" ∈ _hiddenColumns grouped_layout.
Proof. vm_compute. repeat split; left. Qed.

End ColumnFacts.

(* ===================================================================== *)
(** * Properties of the smart filter                                      *)
(* ===================================================================== *)

Section SmartFilterFacts.
Import Js SmartFilter.
Context `{JsHost}.

(** C4: the smart-filter evaluation accepts a row if and only if every
    filter whose condition is absent or 'and' passes on the row, and the set
    of filters whose condition is 'or' is empty or at least one of them
    passes on the row. *)
Theorem evaluateAdvancedFilters_spec (row : gmap string FieldValue)
    (filters : list AdvancedFilter) :
  evaluateAdvancedFilters row filters = true ↔
  (∀ f, f ∈ filters → condition f = None ∨ condition f = Some and_ →
        evaluateFilter row f = true) ∧
  ((∀ f, f ∈ filters → condition f ≠ Some or_) ∨
   (∃ f, f ∈ filters ∧ condition f = Some or_ ∧ evaluateFilter row f = true)).
Proof.
  unfold evaluateAdvancedFilters.
  destruct filters as [|f0 fs] eqn:Ef.
  { cbn. split; [intros _|reflexivity]. split.
    - intros f Hf. inversion Hf.
    - left. intros f Hf. inversion Hf. }
  rewrite <- Ef. replace (length filters =? 0)%nat with false by now rewrite Ef.
  clear Ef f0 fs.
  rewrite andb_true_iff, orb_true_iff, forallb_forall, existsb_exists.
  rewrite Nat.eqb_eq, length_zero_iff_nil.
  assert (Hand :
    (∀ x, In x (List.filter isAndFilter filters) → evaluateFilter row x = true) ↔
    (∀ f, f ∈ filters → condition f = None ∨ condition f = Some and_ →
          evaluateFilter row f = true)).
  { split.
    - intros Hall f Hf Hcond. apply Hall, filter_In.
      split; [now apply list_elem_of_In|].
      unfold isAndFilter. now destruct Hcond as [-> | ->].
    - intros Hall f Hf. apply filter_In in Hf as [Hin Hand].
      apply Hall; [now apply list_elem_of_In|].
      unfold isAndFilter in Hand.
      destruct (condition f) as [[|]|]; auto. discriminate. }
  assert (Hnone :
    List.filter isOrFilter filters = [] ↔
    (∀ f, f ∈ filters → condition f ≠ Some or_)).
  { split.
    - intros Hnil f Hf Hor.
      assert (Hin : In f (List.filter isOrFilter filters)).
      { apply filter_In. split; [now apply list_elem_of_In|].
        unfold isOrFilter. now rewrite Hor. }
      rewrite Hnil in Hin. exact Hin.
    - intros Hno.
      destruct (List.filter isOrFilter filters) as [|f rest] eqn:Eor;
        [reflexivity | exfalso].
      assert (Hin : In f (List.filter isOrFilter filters))
        by (rewrite Eor; now left).
      apply filter_In in Hin as [Hin Hor].
      apply (Hno f); [now apply list_elem_of_In|].
      unfold isOrFilter in Hor.
      destruct (condition f) as [[|]|]; congruence. }
  assert (Hsome :
    (∃ x, In x (List.filter isOrFilter filters) ∧ evaluateFilter row x = true) ↔
    (∃ f, f ∈ filters ∧ condition f = Some or_ ∧ evaluateFilter row f = true)).
  { split.
    - intros (f & Hf & Hpass). apply filter_In in Hf as [Hin Hor].
      exists f. split; [now apply list_elem_of_In|]. split; [|exact Hpass].
      unfold isOrFilter in Hor.
      destruct (condition f) as [[|]|]; congruence.
    - intros (f & Hf & Hor & Hpass). exists f. split; [|exact Hpass].
      apply filter_In. split; [now apply list_elem_of_In|].
      unfold isOrFilter. now rewrite Hor. }
  rewrite Hand, Hnone, Hsome. reflexivity.
Qed.

End SmartFilterFacts.

(* ===================================================================== *)
(** * The JavaScript fragment at work                                     *)
(* ===================================================================== *)

Section JsExamples.
Import Js.
#[local] Existing Instance sampleHost.

Example toLowerCase_mixed : toLowerCase "AbC-9z" = "abc-9z".
Proof. reflexivity. Qed.

Example includes_cases :
  includes "hello" "ell" = true ∧ includes "hello" "elo" = false ∧
  includes "abc" "" = true ∧ includes "" "a" = false.
Proof. repeat split. Qed.

Example startsWith_endsWith_cases :
  startsWith "hello" "he" = true ∧ startsWith "he" "hello" = false ∧
  endsWith "hello" "llo" = true ∧ endsWith "lo" "hello" = false ∧
  endsWith "hello" "" = true.
Proof. repeat split. Qed.

Example ToString_cases :
  ToString (VNum (-25)) = "-25" ∧ ToString (VNum 0) = "0" ∧
  ToString VNull = "null" ∧ ToString (VBool true) = "true".
Proof. repeat split. Qed.

Example slice_cases :
  slice 1 3 [10; 20; 30; 40] = [20; 30] ∧
  slice (-2) 10 [10; 20; 30; 40] = [30; 40] ∧
  slice 3 1 [10; 20; 30; 40] = [] ∧
  slice 4 6 [10; 20; 30; 40] = [].
Proof. repeat split. Qed.

(** Equal keys keep the order they had. *)
Example array_sort_is_stable :
  array_sort (λ a b : Z * string, a.1 - b.1)
             [(2, "x"); (1, "y"); (2, "z"); (1, "w")]
  = [(1, "y"); (1, "w"); (2, "x"); (2, "z")].
Proof. reflexivity. Qed.

Example defaultSort_cases :
  Grid.defaultSort VNull (VNum 3) = -1 ∧
  Grid.defaultSort (VNum 3) VUndefined = 1 ∧
  Grid.defaultSort VNull VUndefined = 0 ∧
  Grid.defaultSort (VNum 25) (VNum 30) = -5 ∧
  Grid.defaultSort (VStr "b") (VStr "a") = 1.
Proof. repeat split. Qed.

Example defaultFilter_cases :
  Grid.defaultFilter (VStr "Alice") (VStr "LIC") "contains" = true ∧
  Grid.defaultFilter (VNum 30) (VNum 25) "greaterThan" = true ∧
  Grid.defaultFilter (VNum 25) (VNum 25) "greaterThan" = false ∧
  Grid.defaultFilter (VStr "abc") (VNum 1) "lessThan" = false ∧
  Grid.defaultFilter (VNum 125) (VNum 25) "no such operator" = true.
Proof. repeat split. Qed.

Example evaluateFilter_cases :
  let row : gmap string SmartFilter.FieldValue :=
    {[ "age" := SmartFilter.Prim (VNum 30);
       "tags" := SmartFilter.Arr [] ]} in
  let on column op v v2 :=
    {| SmartFilter.columnId := column; SmartFilter.operator := op;
       SmartFilter.value := v; SmartFilter.value2 := v2;
       SmartFilter.caseSensitive := None; SmartFilter.condition := None |} in
  SmartFilter.evaluateFilter row
    (on "age" SmartFilter.between (SmartFilter.Prim (VNum 30))
        (SmartFilter.Prim (VNum 40))) = true ∧
  SmartFilter.evaluateFilter row
    (on "age" SmartFilter.in_ (SmartFilter.Arr [VNum 1; VStr "30"])
        (SmartFilter.Prim VUndefined)) = true ∧
  SmartFilter.evaluateFilter row
    (on "tags" SmartFilter.isEmpty (SmartFilter.Prim VUndefined)
        (SmartFilter.Prim VUndefined)) = true ∧
  SmartFilter.evaluateFilter row
    (on "name" SmartFilter.isEmpty (SmartFilter.Prim VUndefined)
        (SmartFilter.Prim VUndefined)) = true ∧
  SmartFilter.evaluateFilter row
    (on "name" SmartFilter.custom (SmartFilter.Prim VUndefined)
        (SmartFilter.Prim VUndefined)) = false ∧
  SmartFilter.evaluateFilter row
    (on "age" SmartFilter.regex (SmartFilter.Prim (VStr "("))
        (SmartFilter.Prim VUndefined)) = false.
Proof. repeat split. Qed.

End JsExamples.

(* ===================================================================== *)
(** * Further properties of the virtualization window                     *)
(* ===================================================================== *)

Section VirtualizationItems.
Import Virtualization.

(** X5: for valid inputs getVisibleItems returns at most
    visibleItems + 2 * overscan + 1 items; when the array has totalItems
    elements it returns exactly max(0, visibleEndIndex - visibleStartIndex + 1)
    of them; and after reset() it returns none. *)
Theorem getVisibleItems_length {A} (items : list A) (s : Service) :
  valid s →
  Z.of_nat (length (getVisibleItems items s))
    <= visibleItems s + 2 * _overscan s + 1 ∧
  (Z.of_nat (length items) = _totalItems s →
   Z.of_nat (length (getVisibleItems items s))
   = Z.max 0 (visibleEndIndex s - visibleStartIndex s + 1)) ∧
  getVisibleItems items (reset s) = [].
Proof.
  intros (Htop & Hi & Hc & Ho & Hn).
  pose proof (visibleStartIndex_nonneg s) as Hs.
  pose proof (visibleEndIndex_le_last s) as He.
  pose proof (visibleItems_positive s Hi Hc) as Hv.
  assert (He0 : -1 <= visibleEndIndex s) by (unfold visibleEndIndex; lia).
  assert (Hlen : ∀ start stop : Z, 0 <= start → 0 <= stop →
    Z.of_nat (length (Js.slice start stop items))
    = Z.max 0 (Z.min stop (Z.of_nat (length items))
               - Z.min start (Z.of_nat (length items)))).
  { intros start stop H0 H1. unfold Js.slice.
    destruct (Z.ltb_spec start 0); [lia|]. destruct (Z.ltb_spec stop 0); [lia|].
    rewrite length_take, length_drop. lia. }
  unfold getVisibleItems. split; [|split].
  - rewrite Hlen by lia. unfold visibleEndIndex. lia.
  - intros Htotal. rewrite Hlen by lia. lia.
  - unfold reset.
    set (s0 := setTotalItems 0 (handleScroll 0%Q s)).
    pose proof (visibleItems_positive s0 Hi Hc) as Hv0.
    pose proof (visibleStartIndex_nonneg s0) as Hs0.
    assert (Hend : visibleEndIndex s0 = -1).
    { unfold visibleEndIndex.
      change (_totalItems s0) with 0. change (_overscan s0) with (_overscan s).
      lia. }
    apply length_zero_iff_nil, Nat2Z.inj. rewrite Hlen by lia. lia.
Qed.

(** ** The property at concrete inputs *)

Lemma scenario_window_valid : valid scenario_window.
Proof. unfold valid; cbn. repeat split; try lia; reflexivity || discriminate. Qed.

Lemma getVisibleItems_length_witness :
  valid (setTotalItems 3 scenario_window) ∧
  Z.of_nat (length (getVisibleItems ["a"; "b"; "c"] (setTotalItems 3 scenario_window)))
  = Z.max 0 (visibleEndIndex (setTotalItems 3 scenario_window)
             - visibleStartIndex (setTotalItems 3 scenario_window) + 1).
Proof.
  assert (Hvalid : valid (setTotalItems 3 scenario_window)).
  { unfold valid; cbn. repeat split; try lia; reflexivity || discriminate. }
  split; [exact Hvalid|].
  apply (getVisibleItems_length ["a"; "b"; "c"] (setTotalItems 3 scenario_window) Hvalid).
  reflexivity.
Defined.

End VirtualizationItems.

(* ===================================================================== *)
(** * Further properties of the grid state service                        *)
(* ===================================================================== *)

Section GridOperations.
Import Js Grid.
Context `{JsHost} `{JsonHost}.

(** ** [findIndex] and [find] *)

Lemma findIndex_None {A} (p : A → bool) (l : list A) :
  findIndex p l = None ↔ ∀ x, x ∈ l → p x = false.
Proof.
  induction l as [|y l IH]; cbn.
  - split; [intros _ x Hx; inversion Hx | reflexivity].
  - destruct (p y) eqn:Ey.
    + split; [discriminate|]. intros Hall.
      rewrite (Hall y) in Ey by left. discriminate.
    + rewrite fmap_None, IH. split.
      * intros Hall x Hx. apply elem_of_cons in Hx as [-> | Hx]; auto.
      * intros Hall x Hx. apply Hall. now right.
Qed.

Lemma findIndex_Some {A} (p : A → bool) (l : list A) (i : nat) :
  findIndex p l = Some i →
  ∃ x, l !! i = Some x ∧ p x = true ∧ List.find p l = Some x ∧
       ∀ j y, (j < i)%nat → l !! j = Some y → p y = false.
Proof.
  revert i. induction l as [|y l IH]; intros i; cbn; [discriminate|].
  destruct (p y) eqn:Ey.
  - intros [= <-]. exists y. repeat split; auto. intros j z Hj. lia.
  - intros Hi. apply fmap_Some in Hi as (k & Hk & ->).
    destruct (IH k Hk) as (x & Hx & Hpx & Hfind & Hbefore).
    exists x. repeat split; auto.
    intros [|j] z Hj Hz; cbn in Hz; [congruence|].
    apply (Hbefore j z); [lia | exact Hz].
Qed.

Lemma find_None_of_index {A} (p : A → bool) (l : list A) :
  findIndex p l = None → List.find p l = None.
Proof.
  induction l as [|y l IH]; cbn; [reflexivity|].
  destruct (p y); [discriminate|]. intros Hn. apply fmap_None in Hn. auto.
Qed.

Lemma findIndex_insert {A} (p : A → bool) (l : list A) (i : nat) (x : A) :
  findIndex p l = Some i → p x = true → findIndex p (<[i := x]> l) = Some i.
Proof.
  revert i. induction l as [|y l IH]; intros i; cbn; [discriminate|].
  destruct (p y) eqn:Ey.
  - intros [= <-] Hx. cbn. now rewrite Hx.
  - intros Hi Hx. apply fmap_Some in Hi as (k & Hk & ->).
    change (<[S k := x]> (y :: l)) with (y :: <[k := x]> l).
    cbn [findIndex]. rewrite Ey. now rewrite (IH k Hk Hx).
Qed.

Lemma findIndex_snoc {A} (p : A → bool) (l : list A) (x : A) :
  findIndex p l = None → p x = true → findIndex p (l ++ [x]) = Some (length l).
Proof.
  induction l as [|y l IH]; cbn.
  - intros _ ->. reflexivity.
  - destruct (p y); [discriminate|]. intros Hn Hx.
    apply fmap_None in Hn. now rewrite IH.
Qed.

Lemma find_insert_same {A} (p : A → bool) (l : list A) (i : nat) (x : A) :
  findIndex p l = Some i → p x = true → List.find p (<[i := x]> l) = Some x.
Proof.
  revert i. induction l as [|y l IH]; intros i; cbn; [discriminate|].
  destruct (p y) eqn:Ey.
  - intros [= <-] Hx. cbn. now rewrite Hx.
  - intros Hi Hx. apply fmap_Some in Hi as (k & Hk & ->).
    change (<[S k := x]> (y :: l)) with (y :: <[k := x]> l).
    cbn [List.find]. rewrite Ey. now apply IH.
Qed.

Lemma find_snoc_new {A} (p : A → bool) (l : list A) (x : A) :
  findIndex p l = None → p x = true → List.find p (l ++ [x]) = Some x.
Proof.
  induction l as [|y l IH]; cbn.
  - intros _ ->. reflexivity.
  - destruct (p y); [discriminate|]. intros Hn Hx.
    apply fmap_None in Hn. now apply IH.
Qed.

(** Replacing an entry that a predicate rejects by another it rejects does
    not change what [find] returns. *)
Lemma find_insert_other {A} (p : A → bool) (l : list A) (i : nat) (x y : A) :
  l !! i = Some y → p y = false → p x = false →
  List.find p (<[i := x]> l) = List.find p l.
Proof.
  revert i. induction l as [|z l IH]; intros i; cbn; [discriminate|].
  destruct i as [|i].
  - intros [= ->] Hy Hx. change (<[0%nat := x]> (y :: l)) with (x :: l).
    cbn [List.find]. now rewrite Hy, Hx.
  - intros Hi Hy Hx. change (<[S i := x]> (z :: l)) with (z :: <[i := x]> l).
    cbn [List.find]. destruct (p z); [reflexivity|]. now apply IH.
Qed.

Lemma find_snoc_other {A} (p : A → bool) (l : list A) (x : A) :
  p x = false → List.find p (l ++ [x]) = List.find p l.
Proof.
  intros Hx. induction l as [|y l IH]; cbn; [now rewrite Hx|].
  destruct (p y); [reflexivity | exact IH].
Qed.

Lemma find_filter_other {A} (p q : A → bool) (l : list A) :
  (∀ x, p x = true → q x = true) →
  List.find p (List.filter q l) = List.find p l.
Proof.
  intros Hpq. induction l as [|y l IH]; cbn; [reflexivity|].
  destruct (q y) eqn:Eq; cbn.
  - destruct (p y); [reflexivity | exact IH].
  - destruct (p y) eqn:Ep; [|exact IH]. apply Hpq in Ep. congruence.
Qed.

Lemma filter_filter_same {A} (q : A → bool) (l : list A) :
  List.filter q (List.filter q l) = List.filter q l.
Proof.
  induction l as [|y l IH]; cbn; [reflexivity|].
  destruct (q y) eqn:Eq; cbn; [rewrite Eq, IH|]; auto.
Qed.

(** ** [setFilter] *)

Lemma setFilter_enabled (c : string) (v : JsValue) (op : option string) (st : Service) :
  enabled (enableFiltering (_options st)) = true →
  setFilter c v op st =
  set_pagination (with_currentPage 1 (_pagination st))
                 (set_filters (filtersAfterSet c v op (_filters st)) st).
Proof. intros Hon. unfold setFilter. rewrite Hon. reflexivity. Qed.

Lemma setFilter_disabled (c : string) (v : JsValue) (op : option string) (st : Service) :
  enabled (enableFiltering (_options st)) = false → setFilter c v op st = st.
Proof. intros Hoff. unfold setFilter. now rewrite Hoff. Qed.

Lemma filtersAfterSet_idempotent (c : string) (v : JsValue) (op : option string)
    (filters : list GridFilter) :
  filtersAfterSet c v op (filtersAfterSet c v op filters) = filtersAfterSet c v op filters.
Proof.
  unfold filtersAfterSet.
  set (new := {| filter_columnId := c; filter_value := v;
                 operator := Some (default "contains" op) |}).
  assert (Hnew : String.eqb (filter_columnId new) c = true) by apply String.eqb_refl.
  destruct (isNullish v || bool_decide (v = VStr "")).
  - apply filter_filter_same.
  - destruct (findIndex _ filters) as [i|] eqn:Ei.
    + rewrite (findIndex_insert _ _ i new Ei Hnew). apply list_insert_insert_eq.
    + rewrite (findIndex_snoc _ _ new Ei Hnew).
      rewrite insert_app_r_alt by lia. now rewrite Nat.sub_diag.
Qed.

(** X6: setting the same filter twice is the same as
    setting it once: setFilter replaces, it does not accumulate. *)
Theorem setFilter_idempotent (c : string) (v : JsValue) (op : option string)
    (st : Service) :
  setFilter c v op (setFilter c v op st) = setFilter c v op st.
Proof.
  destruct (enabled (enableFiltering (_options st))) eqn:Hon.
  - rewrite (setFilter_enabled c v op st Hon).
    rewrite setFilter_enabled by exact Hon.
    unfold set_pagination, set_filters, with_currentPage. cbn.
    now rewrite filtersAfterSet_idempotent.
  - now rewrite !(setFilter_disabled c v op st Hon).
Qed.

Lemma filter_columnIds_after_set (c : string) (v : JsValue) (op : option string)
    (filters : list GridFilter) :
  isNullish v || bool_decide (v = VStr "") = false →
  filter_columnId <$> filtersAfterSet c v op filters =
  if bool_decide (c ∈ filter_columnId <$> filters)
  then filter_columnId <$> filters
  else (filter_columnId <$> filters) ++ [c].
Proof.
  intros Hv. unfold filtersAfterSet. rewrite Hv.
  destruct (findIndex _ filters) as [i|] eqn:Ei.
  - destruct (findIndex_Some _ _ _ Ei) as (x & Hx & Hpx & _).
    apply String.eqb_eq in Hpx.
    rewrite bool_decide_eq_true_2.
    + rewrite list_fmap_insert. cbn. apply list_insert_id.
      rewrite list_lookup_fmap, Hx. cbn. now rewrite Hpx.
    + apply list_elem_of_fmap. exists x. split; [auto|].
      now apply list_elem_of_lookup_2 in Hx.
  - rewrite bool_decide_eq_false_2.
    + now rewrite fmap_app.
    + intros Hin. apply list_elem_of_fmap in Hin as (x & -> & Hx).
      rewrite findIndex_None in Ei. specialize (Ei x Hx).
      now rewrite String.eqb_refl in Ei.
Qed.

(** X7: with filtering enabled and a value that is not
    null, undefined or the empty string, after setFilter(c, v) the filter
    value read for column c is v, the value read for every other column is
    unchanged, a filter list with at most one filter per column stays so, and
    currentPage is 1. *)
Theorem setFilter_replaces (c : string) (v : JsValue) (op : option string)
    (st : Service) :
  enabled (enableFiltering (_options st)) = true →
  isNullish v = false → v ≠ VStr "" →
  getFilterValue c (setFilter c v op st) = v ∧
  (∀ c', c' ≠ c →
     getFilterValue c' (setFilter c v op st) = getFilterValue c' st) ∧
  (NoDup (filter_columnId <$> _filters st) →
   NoDup (filter_columnId <$> _filters (setFilter c v op st))) ∧
  currentPage (_pagination (setFilter c v op st)) = 1.
Proof.
  intros Hon Hnull Hstr.
  assert (Hv : isNullish v || bool_decide (v = VStr "") = false).
  { rewrite Hnull. cbn. now apply bool_decide_eq_false_2. }
  rewrite (setFilter_enabled c v op st Hon).
  unfold getFilterValue. cbn [_filters set_pagination set_filters _pagination
                              with_currentPage currentPage].
  set (new := {| filter_columnId := c; filter_value := v;
                 operator := Some (default "contains" op) |}).
  assert (Hnew : String.eqb (filter_columnId new) c = true) by apply String.eqb_refl.
  repeat split.
  - unfold filtersAfterSet. rewrite Hv. fold new.
    destruct (findIndex _ (_filters st)) as [i|] eqn:Ei.
    + now rewrite (find_insert_same _ _ i new Ei Hnew).
    + now rewrite (find_snoc_new _ _ new Ei Hnew).
  - intros c' Hne.
    assert (Hother : String.eqb (filter_columnId new) c' = false)
      by (apply String.eqb_neq; cbn; congruence).
    unfold filtersAfterSet. rewrite Hv. fold new.
    destruct (findIndex _ (_filters st)) as [i|] eqn:Ei.
    + destruct (findIndex_Some _ _ _ Ei) as (x & Hx & Hpx & _).
      rewrite (find_insert_other _ _ i new x Hx); auto.
      apply String.eqb_eq in Hpx. apply String.eqb_neq. congruence.
    + now rewrite find_snoc_other.
  - intros Hnd. rewrite filter_columnIds_after_set by exact Hv.
    destruct (decide (c ∈ filter_columnId <$> _filters st)) as [Hin|Hin];
      [now rewrite bool_decide_eq_true_2 | rewrite bool_decide_eq_false_2 by exact Hin].
    apply NoDup_app. repeat split; [exact Hnd | | apply NoDup_singleton].
    intros x Hx Hx'. apply list_elem_of_singleton in Hx'. now subst x.
Qed.

(** X8: with filtering enabled, setFilter(c, v)
    with v null, undefined or the empty string leaves no filter on column c
    (the value read for c is null), keeps every filter of the other columns,
    in their order, and sets currentPage to 1. *)
Theorem setFilter_empty_removes (c : string) (v : JsValue) (op : option string)
    (st : Service) :
  enabled (enableFiltering (_options st)) = true →
  v = VNull ∨ v = VUndefined ∨ v = VStr "" →
  (∀ f, f ∈ _filters (setFilter c v op st) → filter_columnId f ≠ c) ∧
  getFilterValue c (setFilter c v op st) = VNull ∧
  (∀ f, filter_columnId f ≠ c →
     (f ∈ _filters (setFilter c v op st) ↔ f ∈ _filters st)) ∧
  _filters (setFilter c v op st) `sublist_of` _filters st ∧
  currentPage (_pagination (setFilter c v op st)) = 1.
Proof.
  intros Hon Hv.
  assert (Hempty : isNullish v || bool_decide (v = VStr "") = true)
    by (destruct Hv as [-> | [-> | ->]]; reflexivity).
  rewrite (setFilter_enabled c v op st Hon).
  unfold getFilterValue. cbn [_filters set_pagination set_filters _pagination
                              with_currentPage currentPage].
  unfold filtersAfterSet. rewrite Hempty.
  assert (Hin : ∀ f, f ∈ List.filter (λ f, negb (String.eqb (filter_columnId f) c))
                                     (_filters st)
                     ↔ f ∈ _filters st ∧ filter_columnId f ≠ c).
  { intros f. rewrite list_elem_of_In, filter_In, <- list_elem_of_In.
    now rewrite negb_true_iff, String.eqb_neq. }
  split; [|split; [|split; [|split; [|reflexivity]]]].
  - intros f Hf. now apply Hin in Hf.
  - destruct (List.find _ _) as [f|] eqn:Ef; [exfalso | reflexivity].
    apply find_some in Ef as [Hf Hc]. apply list_elem_of_In, Hin in Hf as [_ Hne].
    apply String.eqb_eq in Hc. contradiction.
  - intros f Hne. rewrite Hin. tauto.
  - clear Hin. induction (_filters st) as [|f fs IH]; cbn; [constructor|].
    destruct (negb _); [now apply sublist_skip | now apply sublist_cons].
Qed.


(** ** [sortBy] *)

Lemma find_alter_same {A} (p : A → bool) (f : A → A) (l : list A) (i : nat) (x : A) :
  findIndex p l = Some i → l !! i = Some x → p (f x) = true →
  List.find p (alter f i l) = Some (f x).
Proof.
  revert i. induction l as [|y l IH]; intros i; cbn [findIndex]; [discriminate|].
  destruct (p y) eqn:Ey.
  - intros [= <-] [= ->] Hfx. cbn. now rewrite Hfx.
  - intros Hi Hx Hfx. apply fmap_Some in Hi as (k & Hk & ->).
    change (alter f (S k) (y :: l)) with (y :: alter f k l).
    cbn [List.find]. rewrite Ey. now apply IH.
Qed.

Lemma find_alter_other {A} (p : A → bool) (f : A → A) (l : list A) (i : nat) (y : A) :
  l !! i = Some y → p y = false → p (f y) = false →
  List.find p (alter f i l) = List.find p l.
Proof.
  revert i. induction l as [|z l IH]; intros i; [discriminate|].
  destruct i as [|i].
  - intros [= ->] Hy Hfy. cbn. now rewrite Hy, Hfy.
  - intros Hi Hy Hfy. change (alter f (S i) (z :: l)) with (z :: alter f i l).
    cbn [List.find]. destruct (p z); [reflexivity|]. now apply IH.
Qed.

Lemma fmap_alter_same {A B} (g : A → B) (f : A → A) (l : list A) (i : nat) :
  (∀ x, g (f x) = g x) → g <$> alter f i l = g <$> l.
Proof.
  intros Hg. revert i. induction l as [|z l IH]; intros [|i]; cbn; try reflexivity.
  - now rewrite Hg.
  - f_equal. apply IH.
Qed.

Lemma currentDirection_is_getSortDirection (c : string) (st : Service) :
  match findIndex (λ s, String.eqb (sort_columnId s) c) (_sort st) with
  | Some i => direction <$> _sort st !! i
  | None => None
  end = getSortDirection c st.
Proof.
  unfold getSortDirection.
  destruct (findIndex _ (_sort st)) as [i|] eqn:Ei.
  - destruct (findIndex_Some _ _ _ Ei) as (x & Hx & _ & Hfind & _).
    now rewrite Hx, Hfind.
  - now rewrite (find_None_of_index _ _ Ei).
Qed.

(** X9: with sorting enabled, after sortBy(c, direction)
    the direction read for column c is the given one, or, when none is given,
    desc if the column was sorted asc and asc otherwise; in single-sort mode
    the sort list is exactly that one entry. *)
Theorem sortBy_direction (c : string) (dir : option Direction) (st : Service) :
  enabled (enableSorting (_options st)) = true →
  getSortDirection c (sortBy c dir st)
  = Some (directionAfter dir (getSortDirection c st)) ∧
  (enabled (multiSort (_options st)) = false →
   _sort (sortBy c dir st)
   = [{| sort_columnId := c;
         direction := directionAfter dir (getSortDirection c st) |}]).
Proof.
  intros Hon. unfold sortBy. rewrite Hon. cbn [negb].
  rewrite (currentDirection_is_getSortDirection c st).
  fold (directionAfter dir (getSortDirection c st)).
  set (d := directionAfter dir (getSortDirection c st)).
  destruct (enabled (multiSort (_options st))) eqn:Hmulti.
  - split; [|discriminate].
    destruct (findIndex _ (_sort st)) as [i|] eqn:Ei.
    + destruct (findIndex_Some _ _ _ Ei) as (x & Hx & Hpx & _).
      unfold getSortDirection. cbn [_sort set_sort].
      erewrite find_alter_same; [reflexivity | exact Ei | exact Hx | exact Hpx].
    + unfold getSortDirection. cbn [_sort set_sort].
      rewrite find_snoc_new; [reflexivity | exact Ei | apply String.eqb_refl].
  - split; [|reflexivity].
    unfold getSortDirection. cbn. now rewrite String.eqb_refl.
Qed.

(** X10: in multi-sort mode sortBy(c) keeps the
    sort keys in their order when c is already one of them and appends c at
    the end otherwise; the direction of every other column is unchanged, and
    a sort list without repeated columns stays so. *)
Theorem sortBy_multi_keeps_keys (c : string) (dir : option Direction) (st : Service) :
  enabled (enableSorting (_options st)) = true →
  enabled (multiSort (_options st)) = true →
  sort_columnId <$> _sort (sortBy c dir st)
  = (if bool_decide (c ∈ sort_columnId <$> _sort st)
     then sort_columnId <$> _sort st
     else (sort_columnId <$> _sort st) ++ [c]) ∧
  (∀ c', c' ≠ c → getSortDirection c' (sortBy c dir st) = getSortDirection c' st) ∧
  (NoDup (sort_columnId <$> _sort st) →
   NoDup (sort_columnId <$> _sort (sortBy c dir st))).
Proof.
  intros Hon Hmulti. unfold sortBy. rewrite Hon, Hmulti. cbn [negb].
  rewrite (currentDirection_is_getSortDirection c st).
  fold (directionAfter dir (getSortDirection c st)).
  set (d := directionAfter dir (getSortDirection c st)).
  destruct (findIndex _ (_sort st)) as [i|] eqn:Ei.
  - destruct (findIndex_Some _ _ _ Ei) as (x & Hx & Hpx & _).
    apply String.eqb_eq in Hpx.
    assert (Hin : c ∈ sort_columnId <$> _sort st).
    { apply list_elem_of_fmap. exists x. split; [auto|].
      now apply list_elem_of_lookup_2 in Hx. }
    cbn [_sort set_sort]. rewrite bool_decide_eq_true_2 by exact Hin.
    rewrite fmap_alter_same by reflexivity.
    split; [reflexivity|]. split; [|trivial].
    intros c' Hne. unfold getSortDirection. cbn [_sort set_sort].
    rewrite (find_alter_other _ _ _ i x Hx); [reflexivity | |];
      cbn; apply String.eqb_neq; congruence.
  - assert (Hnotin : c ∉ sort_columnId <$> _sort st).
    { intros Hin. apply list_elem_of_fmap in Hin as (x & -> & Hx).
      rewrite findIndex_None in Ei. specialize (Ei x Hx).
      now rewrite String.eqb_refl in Ei. }
    cbn [_sort set_sort]. rewrite bool_decide_eq_false_2 by exact Hnotin.
    rewrite fmap_app. split; [reflexivity|]. split.
    + intros c' Hne. unfold getSortDirection. cbn [_sort set_sort].
      rewrite find_snoc_other; [reflexivity|].
      cbn. apply String.eqb_neq. congruence.
    + intros Hnd. apply NoDup_app. repeat split; [exact Hnd | | apply NoDup_singleton].
      intros x Hx Hx'. apply list_elem_of_singleton in Hx'. now subst x.
Qed.


(** ** The stages of the pipeline *)

Lemma filter_sublist {A} (q : A → bool) (l : list A) :
  List.filter q l `sublist_of` l.
Proof.
  induction l as [|x l IH]; cbn; [constructor|].
  destruct (q x); [now apply sublist_skip | now apply sublist_cons].
Qed.

Lemma filter_forallb_app {A B} (P : A → B → bool) (fs gs : list B) (l : list A) :
  List.filter (λ r, forallb (P r) (fs ++ gs)) l
  = List.filter (λ r, forallb (P r) gs) (List.filter (λ r, forallb (P r) fs) l).
Proof.
  induction l as [|r l IH]; [reflexivity|].
  cbn [List.filter]. rewrite forallb_app.
  destruct (forallb (P r) fs); cbn [andb List.filter]; [|exact IH].
  destruct (forallb (P r) gs); [f_equal|]; exact IH.
Qed.

Lemma applyFilters_sublist (st : Service) (rws : list GridRow) :
  applyFilters st rws `sublist_of` rws.
Proof.
  unfold applyFilters. destruct (length (_filters st) =? 0)%nat;
    [reflexivity | apply filter_sublist].
Qed.

(** X11: the filter stage keeps the rows in their order;
    a row is kept exactly when it passes every active filter; and filtering
    by the filters fs followed by gs is filtering by fs and then by gs. *)
Theorem applyFilters_spec (st : Service) (rws : list GridRow) :
  applyFilters st rws `sublist_of` rws ∧
  (∀ row, row ∈ applyFilters st rws ↔
          row ∈ rws ∧
          ∀ f, f ∈ _filters st → passesFilter (_columns st) row f = true) ∧
  (∀ fs gs,
     applyFilters (set_filters (fs ++ gs) st) rws
     = applyFilters (set_filters gs st) (applyFilters (set_filters fs st) rws)).
Proof.
  split; [apply applyFilters_sublist|split].
  - intros row. unfold applyFilters.
    destruct (_filters st) as [|f fs] eqn:Ef; cbn [length Nat.eqb].
    + split; [intros Hin; split; [exact Hin|] | tauto].
      intros f Hf. inversion Hf.
    + rewrite list_elem_of_In, filter_In, <- list_elem_of_In, forallb_forall.
      split; intros [Hin Hall]; (split; [exact Hin|]); intros g Hg;
        apply Hall; now apply list_elem_of_In.
  - intros fs gs. unfold applyFilters. cbn [_filters set_filters _columns].
    destruct fs as [|f fs]; [reflexivity|].
    destruct gs as [|g gs].
    + now rewrite app_nil_r.
    + cbn [length Nat.eqb app].
      apply (filter_forallb_app (passesFilter (_columns st)) (f :: fs) (g :: gs)).
Qed.

Lemma sort_insert_perm {A} (cmp : A → A → Z) (x : A) (l : list A) :
  sort_insert cmp x l ≡ₚ x :: l.
Proof.
  induction l as [|y l IH]; cbn; [reflexivity|].
  destruct (cmp x y <=? 0); [reflexivity|].
  rewrite IH. apply Permutation_swap.
Qed.

Lemma array_sort_perm {A} (cmp : A → A → Z) (l : list A) :
  array_sort cmp l ≡ₚ l.
Proof.
  induction l as [|x l IH]; cbn; [reflexivity|].
  now rewrite sort_insert_perm, IH.
Qed.

Lemma sort_insert_before {A} (cmp : A → A → Z) (a b : A) (l : list A) :
  b ∈ l → cmp a b <= 0 → [a; b] `sublist_of` sort_insert cmp a l.
Proof.
  induction l as [|y l IH]; intros Hb Hcmp; [inversion Hb|].
  cbn. destruct (Z.leb_spec (cmp a y) 0) as [Hle|Hgt].
  - apply sublist_skip. now apply singleton_sublist_l.
  - apply sublist_cons. apply IH; [|exact Hcmp].
    apply elem_of_cons in Hb as [-> | Hb]; [lia | exact Hb].
Qed.

Lemma sort_insert_keeps {A} (cmp : A → A → Z) (x : A) (l k : list A) :
  k `sublist_of` l → k `sublist_of` sort_insert cmp x l.
Proof.
  revert k. induction l as [|y l IH]; intros k Hk; cbn.
  - now apply sublist_cons.
  - destruct (cmp x y <=? 0); [now apply sublist_cons|].
    apply sublist_cons_r in Hk as [Hk | (k' & -> & Hk)].
    + apply sublist_cons. now apply IH.
    + apply sublist_skip. now apply IH.
Qed.

Lemma array_sort_keeps_ordered_pairs {A} (cmp : A → A → Z) (a b : A) (l : list A) :
  [a; b] `sublist_of` l → cmp a b <= 0 → [a; b] `sublist_of` array_sort cmp l.
Proof.
  induction l as [|x l IH]; intros Hab Hcmp; [inversion Hab|].
  cbn. apply sublist_cons_r in Hab as [Hab | (k & Heq & Hk)].
  - apply sort_insert_keeps. now apply IH.
  - injection Heq as <- <-. apply sort_insert_before; [|exact Hcmp].
    apply singleton_sublist_l in Hk. now rewrite array_sort_perm.
Qed.

Lemma applySorting_perm (st : Service) (rws : list GridRow) :
  applySorting st rws ≡ₚ rws.
Proof.
  unfold applySorting. destruct (length (_sort st) =? 0)%nat;
    [reflexivity | apply array_sort_perm].
Qed.

Lemma consistent_flip {A} (cmp : A → A → Z) (l : list A) (a b : A) :
  consistent cmp l → a ∈ l → b ∈ l → cmp a b > 0 → cmp b a < 0.
Proof.
  intros Hc Ha Hb Hgt.
  destruct (Hc a b a Ha Hb Ha) as (Hrefl & _ & _ & _ & Hgg).
  destruct (Hc b a b Hb Ha Hb) as (_ & Hsym & _).
  destruct (Z.lt_trichotomy (cmp b a) 0) as [Hlt | [Heq | Hpos]]; [exact Hlt | |].
  - specialize (Hsym Heq). lia.
  - specialize (Hgg Hgt ltac:(lia)). lia.
Qed.

Lemma consistent_le_trans {A} (cmp : A → A → Z) (l : list A) (a b c : A) :
  consistent cmp l → a ∈ l → b ∈ l → c ∈ l →
  cmp a b <= 0 → cmp b c <= 0 → cmp a c <= 0.
Proof.
  intros Hc Ha Hb Hcin Hab Hbc.
  destruct (Z.le_gt_cases (cmp a c) 0) as [Hle | Hgt]; [exact Hle | exfalso].
  assert (Hca : cmp c a < 0) by (apply (consistent_flip cmp l a c); auto; lia).
  destruct (Hc a b c Ha Hb Hcin) as (_ & Hsym_ab & Heq_abc & Hlt_abc & _).
  destruct (Hc b c a Hb Hcin Ha) as (_ & Hsym_bc & _ & Hlt_bca & _).
  destruct (Hc c a b Hcin Ha Hb) as (_ & _ & _ & Hlt_cab & _).
  destruct (Hc c b c Hcin Hb Hcin) as (_ & _ & _ & _ & _).
  destruct (Z.eq_dec (cmp a b) 0) as [Eab | Nab], (Z.eq_dec (cmp b c) 0) as [Ebc | Nbc].
  - specialize (Heq_abc Eab Ebc). lia.
  - (* a = b, b < c, c < a: b < a *)
    specialize (Hlt_bca ltac:(lia) Hca). specialize (Hsym_ab Eab). lia.
  - (* a < b, b = c, c < a: c < b *)
    specialize (Hlt_cab Hca ltac:(lia)). specialize (Hsym_bc Ebc). lia.
  - specialize (Hlt_abc ltac:(lia) ltac:(lia)). lia.
Qed.

Lemma ordered_cons {A} (cmp : A → A → Z) (x : A) (l : list A) :
  ordered cmp (x :: l) ↔ (∀ y, y ∈ l → cmp x y <= 0) ∧ ordered cmp l.
Proof.
  unfold ordered. split.
  - intros Hord. split.
    + intros y Hy. apply list_elem_of_lookup in Hy as [j Hj].
      apply (Hord 0%nat (S j) x y); [lia | reflexivity | exact Hj].
    + intros i j a b Hij Ha Hb. apply (Hord (S i) (S j) a b); [lia | exact Ha | exact Hb].
  - intros [Hhead Htail] i j a b Hij Ha Hb.
    destruct j as [|j]; [lia|]. cbn in Hb.
    destruct i as [|i].
    + injection Ha as <-. apply Hhead. now apply list_elem_of_lookup_2 in Hb.
    + cbn in Ha. apply (Htail i j a b); [lia | exact Ha | exact Hb].
Qed.

Lemma sort_insert_ordered {A} (cmp : A → A → Z) (s : list A) (x : A) (l : list A) :
  consistent cmp s → x ∈ s → (∀ y, y ∈ l → y ∈ s) →
  ordered cmp l → ordered cmp (sort_insert cmp x l).
Proof.
  intros Hc Hx. induction l as [|y t IH]; intros Hsub Hord; cbn.
  - apply ordered_cons. split; [intros y Hy; inversion Hy|].
    intros i j a b _ Ha. discriminate Ha.
  - apply ordered_cons in Hord as [Hhead Htail].
    assert (Hy : y ∈ s) by (apply Hsub; left).
    assert (Ht : ∀ z, z ∈ t → z ∈ s) by (intros z Hz; apply Hsub; now right).
    destruct (Z.leb_spec (cmp x y) 0) as [Hle | Hgt].
    + apply ordered_cons. split.
      * intros z Hz. apply elem_of_cons in Hz as [-> | Hz]; [exact Hle|].
        apply (consistent_le_trans cmp s x y z); auto.
      * apply ordered_cons. split; assumption.
    + apply ordered_cons. split.
      * intros z Hz. rewrite sort_insert_perm in Hz.
        apply elem_of_cons in Hz as [-> | Hz]; [|now apply Hhead].
        pose proof (consistent_flip cmp s x y Hc Hx Hy ltac:(lia)). lia.
      * apply IH; assumption.
Qed.

Lemma array_sort_ordered {A} (cmp : A → A → Z) (s l : list A) :
  consistent cmp s → (∀ y, y ∈ l → y ∈ s) → ordered cmp (array_sort cmp l).
Proof.
  intros Hc. induction l as [|x l IH]; intros Hsub; cbn.
  - intros i j a b _ Ha. discriminate Ha.
  - apply (sort_insert_ordered cmp s); [exact Hc | apply Hsub; left | |].
    + intros y Hy. rewrite array_sort_perm in Hy. apply Hsub. now right.
    + apply IH. intros y Hy. apply Hsub. now right.
Qed.

(** X12: for a comparator that is consistent on the rows (the case in
    which ECMAScript fixes the result of sort), the sort stage returns a
    permutation of its input (no row lost, none duplicated), no row of the
    result compares greater than a row after it, and two rows that compare
    equal on every sort key keep their relative order. *)
Theorem applySorting_stable (st : Service) (rws : list GridRow) :
  consistent (compareRows (_columns st) (_sort st)) rws →
  applySorting st rws ≡ₚ rws ∧
  ordered (compareRows (_columns st) (_sort st)) (applySorting st rws) ∧
  (∀ a b, [a; b] `sublist_of` rws →
          compareRows (_columns st) (_sort st) a b = 0 →
          [a; b] `sublist_of` applySorting st rws).
Proof.
  intros Hc. split; [apply applySorting_perm|]. split.
  - unfold applySorting. destruct (_sort st) as [|e sorts] eqn:Esort.
    + intros i j a b _ _ _. cbn. lia.
    + cbn [length Nat.eqb]. rewrite <- Esort. rewrite <- Esort in Hc.
      now apply (array_sort_ordered _ rws).
  - unfold applySorting. destruct (length (_sort st) =? 0)%nat; [auto|].
    intros a b Hab Hcmp. apply array_sort_keeps_ordered_pairs; [exact Hab | lia].
Qed.

Lemma slice_sublist {A} (start stop : Z) (l : list A) :
  slice start stop l `sublist_of` l.
Proof.
  unfold slice. etransitivity; [apply sublist_take | apply sublist_drop].
Qed.

Lemma slice_length_le {A} (start stop : Z) (l : list A) :
  Z.of_nat (length (slice start stop l)) <= Z.max 0 (stop - start) ∨ start < 0 ∨ stop < 0.
Proof.
  unfold slice.
  destruct (Z.ltb_spec start 0); [auto|]. destruct (Z.ltb_spec stop 0); [auto|].
  left. rewrite length_take. lia.
Qed.

(** X13: the page stage returns a subsequence of its input; without
    pagination it returns the input as it is; with pagination, an integer
    current page >= 1 and an integer page size >= 0, it returns at most
    pageSize rows. *)
Theorem applyPagination_page (st : Service) (rws : list GridRow) :
  applyPagination st rws `sublist_of` rws ∧
  (enabled (enablePagination (_options st)) = false →
   applyPagination st rws = rws) ∧
  (enabled (enablePagination (_options st)) = true →
   1 <= currentPage (_pagination st) → 0 <= pageSize (_pagination st) →
   Z.of_nat (length (applyPagination st rws)) <= pageSize (_pagination st)).
Proof.
  unfold applyPagination. split; [|split].
  - destruct (negb _); [reflexivity | apply slice_sublist].
  - intros Hoff. now rewrite Hoff.
  - intros Hon Hpage Hsize. rewrite Hon. cbn [negb].
    match goal with
    | |- Z.of_nat (length (slice ?a ?b ?l)) <= _ =>
        destruct (slice_length_le a b l) as [Hle | [Hneg | Hneg]]
    end; nia.
Qed.

Lemma slice_from_zero {A} (n : Z) (l : list A) :
  0 <= n → slice 0 n l = take (Z.to_nat n) l.
Proof.
  intros Hn. unfold slice.
  destruct (Z.ltb_spec 0 0); [lia|]. destruct (Z.ltb_spec n 0); [lia|].
  replace (Z.to_nat (Z.min 0 (Z.of_nat (length l)))) with 0%nat by lia.
  cbn [drop].
  destruct (Z.le_gt_cases n (Z.of_nat (length l))).
  - f_equal. lia.
  - rewrite (take_ge l (Z.to_nat n)) by lia. apply take_ge. lia.
Qed.

(** X14: with pagination enabled, after setPageSize(size) with an integer
    size >= 0 the current page is 1 and the page stage cuts the first size
    rows out of its input. *)
Theorem setPageSize_shows_first_page (size : Z) (st : Service)
    (rws : list GridRow) :
  enabled (enablePagination (_options st)) = true → 0 <= size →
  applyPagination (setPageSize size st) rws = take (Z.to_nat size) rws ∧
  currentPage (_pagination (setPageSize size st)) = 1.
Proof.
  intros Hon Hsize. split; [|reflexivity].
  unfold applyPagination, setPageSize. cbn. rewrite Hon. cbn [negb].
  now apply slice_from_zero.
Qed.

Lemma pageAt_slice (page : Z) (st : Service) (rws : list GridRow) :
  enabled (enablePagination (_options st)) = true →
  pageAt page st rws =
  slice ((page - 1) * pageSize (_pagination st))
        ((page - 1) * pageSize (_pagination st) + pageSize (_pagination st)) rws.
Proof.
  intros Hon. unfold pageAt, applyPagination. cbn. now rewrite Hon.
Qed.

(** X31: with pagination enabled and an integer pageSize >= 1, the pages
    that the page stage cuts at currentPage = 1, 2, ..., ceil(n / pageSize)
    out of n rows, put one after the other, are exactly the rows: none is
    duplicated and none is left out. *)
Theorem applyPagination_pages_cover (st : Service) (rws : list GridRow) :
  enabled (enablePagination (_options st)) = true →
  1 <= pageSize (_pagination st) →
  concat ((λ page, pageAt page st rws) <$>
          pageNumbers (ceil_div (Z.of_nat (length rws)) (pageSize (_pagination st))))
  = rws.
Proof.
  intros Hon Hps.
  set (ps := pageSize (_pagination st)) in *.
  destruct (ceil_div_covers (Z.of_nat (length rws)) ps) as [Hk0 Hcover];
    [lia | exact Hps |].
  rewrite (list_fmap_ext _
    (λ page, slice ((page - 1) * ps) ((page - 1) * ps + ps) rws)).
  - rewrite <- (Z2Nat.id (ceil_div (Z.of_nat (length rws)) ps)) by exact Hk0.
    rewrite pages_concat by exact Hps.
    apply take_ge. nia.
  - intros i page _. now apply pageAt_slice.
Qed.

(** ** The totals are never written *)







(** ** Selection *)

Lemma selectedIds_selectRow (rowId : JsValue) (sel : bool) (st : Service) :
  selectedIds (_selection (selectRow rowId sel st)) =
  match mode (_selection st) with
  | none => selectedIds (_selection st)
  | single =>
      if sel then [rowId]
      else List.filter (λ id, negb (bool_decide (id = rowId)))
                       (selectedIds (_selection st))
  | multiple =>
      if sel then
        if array_includes (selectedIds (_selection st)) rowId
        then selectedIds (_selection st)
        else selectedIds (_selection st) ++ [rowId]
      else List.filter (λ id, negb (bool_decide (id = rowId)))
                       (selectedIds (_selection st))
  end.
Proof.
  unfold selectRow. destruct (mode (_selection st)); [| |reflexivity].
  - destruct sel; reflexivity.
  - destruct sel; [destruct (array_includes _ _)|]; reflexivity.
Qed.




Lemma selectRow_mode (rowId : JsValue) (sel : bool) (st : Service) :
  mode (_selection (selectRow rowId sel st)) = mode (_selection st).
Proof. exact (call_mode (CallSelectRow rowId sel) st). Qed.

(** X17: in 'single' mode, from a selection of at
    most one id, every sequence of selectRow and selectAllRows calls leaves at
    most one id selected. *)
Theorem single_mode_one_selected (calls : list SelectionCall) (st : Service) :
  mode (_selection st) = single →
  (length (selectedIds (_selection st)) <= 1)%nat →
  (length (selectedIds (_selection (callAll calls st))) <= 1)%nat.
Proof.
  revert st. induction calls as [|c calls IH]; intros st Hsingle Hone; [exact Hone|].
  cbn. apply IH.
  - now rewrite call_mode.
  - destruct c as [rowId sel | sel]; cbn.
    + rewrite selectedIds_selectRow, Hsingle.
      destruct sel; [cbn; lia|].
      etransitivity; [|exact Hone].
      apply sublist_length, filter_sublist.
    + unfold selectAllRows. now rewrite Hsingle.
Qed.

(** ** Calls that are ignored *)

(** X18: invalid calls are ignored: in mode 'none' every
    sequence of selection calls, and toggleRowSelection, leave the state as it
    is; so does setPage outside [1, totalPages], sortBy with sorting disabled
    and setFilter with filtering disabled. *)
Theorem ignored_calls (st : Service) :
  (mode (_selection st) = none →
   ∀ calls rowId, callAll calls st = st ∧ toggleRowSelection rowId st = st) ∧
  (∀ page, page < 1 ∨ totalPages (_pagination st) < page → setPage page st = st) ∧
  (enabled (enableSorting (_options st)) = false →
   ∀ c dir, sortBy c dir st = st) ∧
  (enabled (enableFiltering (_options st)) = false →
   ∀ c v op, setFilter c v op st = st).
Proof.
  split; [|split; [|split]].
  - intros Hnone calls rowId. split.
    + induction calls as [|c calls IH]; [reflexivity|].
      cbn. replace (call c st) with st; [exact IH|].
      destruct c as [r sel | sel]; cbn.
      * unfold selectRow. now rewrite Hnone.
      * unfold selectAllRows. now rewrite Hnone.
    + unfold toggleRowSelection, selectRow. now rewrite Hnone.
  - intros page Hout. unfold setPage.
    destruct (Z.leb_spec 1 page); destruct (Z.leb_spec page (totalPages (_pagination st)));
      cbn [andb]; try reflexivity. lia.
  - intros Hoff c dir. unfold sortBy. now rewrite Hoff.
  - intros Hoff c v op. now apply setFilter_disabled.
Qed.

(** ** Import and initialisation *)


End GridOperations.

Section GridOperationExamples.
Import Js Grid.
#[local] Existing Instance sampleHost.
#[local] Existing Instance sampleJsonHost.

Lemma scenario_filtering_enabled :
  enabled (enableFiltering (_options scenario_grid)) = true.
Proof. reflexivity. Qed.

Lemma setFilter_replaces_witness :
  getFilterValue "age" (setFilter "age" (VNum 25) (Some "greaterThan") scenario_grid)
  = VNum 25.
Proof.
  apply (setFilter_replaces "age" (VNum 25) (Some "greaterThan") scenario_grid);
    [reflexivity | reflexivity | discriminate].
Defined.

Lemma setFilter_empty_removes_witness :
  getFilterValue "age"
    (setFilter "age" (VStr "") None
       (setFilter "age" (VNum 25) (Some "greaterThan") scenario_grid))
  = VNull.
Proof.
  apply (setFilter_empty_removes "age" (VStr "") None
           (setFilter "age" (VNum 25) (Some "greaterThan") scenario_grid));
    [reflexivity | right; right; reflexivity].
Defined.

Lemma sortBy_direction_witness :
  getSortDirection "age" (sortBy "age" None (sortBy "age" None scenario_grid))
  = Some desc.
Proof.
  rewrite (proj1 (sortBy_direction "age" None (sortBy "age" None scenario_grid)
                    eq_refl)).
  reflexivity.
Defined.

Lemma sortBy_multi_keeps_keys_witness :
  sort_columnId <$> _sort (sortBy "age" (Some desc)
                             (sortBy "id" None (sortBy "age" None scenario_grid)))
  = ["age"; "id"].
Proof.
  rewrite (proj1 (sortBy_multi_keeps_keys "age" (Some desc)
                    (sortBy "id" None (sortBy "age" None scenario_grid))
                    eq_refl eq_refl)).
  reflexivity.
Defined.

Lemma scenario_rows_consistent :
  consistent (compareRows (_columns (sortBy "age" None scenario_grid))
                          (_sort (sortBy "age" None scenario_grid)))
             (rows (sortBy "age" None scenario_grid)).
Proof.
  intros a b c Ha Hb Hc.
  apply list_elem_of_In in Ha, Hb, Hc.
  vm_compute in Ha, Hb, Hc.
  destruct Ha as [<- | [<- | [<- | []]]], Hb as [<- | [<- | [<- | []]]],
    Hc as [<- | [<- | [<- | []]]];
    vm_compute; repeat split; intros; try reflexivity; try discriminate.
Qed.

Lemma applySorting_stable_witness :
  let st := sortBy "age" None scenario_grid in
  consistent (compareRows (_columns st) (_sort st)) (rows st) ∧
  row_id <$> applySorting st (rows st) = [VNum 2; VNum 3; VNum 1] ∧
  ordered (compareRows (_columns st) (_sort st)) (applySorting st (rows st)).
Proof.
  cbv zeta. split; [exact scenario_rows_consistent|]. split; [reflexivity|].
  exact (proj1 (proj2 (applySorting_stable (sortBy "age" None scenario_grid)
                         (rows (sortBy "age" None scenario_grid))
                         scenario_rows_consistent))).
Defined.
Lemma applyPagination_page_witness :
  Z.of_nat (length (applyPagination (setPageSize 2 scenario_grid)
                                    (rows scenario_grid))) <= 2.
Proof.
  apply (applyPagination_page (setPageSize 2 scenario_grid) (rows scenario_grid));
    [reflexivity | cbn; lia | cbn; lia].
Defined.

Lemma setPageSize_shows_first_page_witness :
  row_id <$> applyPagination (setPageSize 2 scenario_grid) (rows scenario_grid)
  = [VNum 1; VNum 2].
Proof.
  rewrite (proj1 (setPageSize_shows_first_page 2 scenario_grid
                    (rows scenario_grid) eq_refl ltac:(lia))).
  reflexivity.
Defined.

Lemma applyPagination_pages_cover_witness :
  pageAt 1 (setPageSize 2 scenario_grid) (rows scenario_grid)
  ++ pageAt 2 (setPageSize 2 scenario_grid) (rows scenario_grid)
  = rows scenario_grid.
Proof.
  rewrite <- (applyPagination_pages_cover (setPageSize 2 scenario_grid)
                (rows scenario_grid) eq_refl ltac:(cbn; lia)) at 3.
  reflexivity.
Defined.



Lemma single_mode_one_selected_witness :
  let st := initialize scenario_records scenario_columns
              {| enableSorting := None; enableFiltering := None;
                 enablePagination := None; enableSelection := None;
                 multiSort := None; selectionMode := Some single;
                 opt_pageSize := None; opt_pageSizeOptions := None;
                 persistState := None; stateKey := None; debounceMs := None |}
              new_service in
  (length (selectedIds (_selection
             (callAll [CallSelectRow (VNum 1) true; CallSelectRow (VNum 2) true;
                       CallSelectAllRows true] st))) <= 1)%nat.
Proof.
  cbv zeta. apply single_mode_one_selected; [reflexivity | cbn; lia].
Defined.

Lemma ignored_calls_witness :
  setPage 7 scenario_grid = scenario_grid ∧
  callAll [CallSelectRow (VNum 1) true; CallSelectAllRows true] scenario_grid
  = scenario_grid.
Proof.
  destruct (ignored_calls scenario_grid) as (Hnone & Hpage & _).
  split.
  - apply Hpage. right. cbn. lia.
  - exact (proj1 (Hnone eq_refl [CallSelectRow (VNum 1) true; CallSelectAllRows true]
                        VNull)).
Defined.


End GridOperationExamples.

(* ===================================================================== *)
(** * Further properties of the column manager                            *)
(* ===================================================================== *)

Section ColumnOperations.
Import Js Columns.

Lemma ids_include_spec (ids : list string) (id : string) :
  ids_include ids id = true ↔ id ∈ ids.
Proof.
  unfold ids_include. rewrite existsb_exists. split.
  - intros (x & Hin & Heq). apply String.eqb_eq in Heq. subst x.
    now apply list_elem_of_In.
  - intros Hin. exists id. split; [now apply list_elem_of_In | apply String.eqb_refl].
Qed.

Lemma ids_include_false (ids : list string) (id : string) :
  ids_include ids id = false ↔ id ∉ ids.
Proof. rewrite <- ids_include_spec. now destruct (ids_include ids id). Qed.

Lemma ids_include_snoc (ids : list string) (id : string) :
  ids_include (ids ++ [id]) id = true.
Proof. apply ids_include_spec, elem_of_app. right. left. Qed.

Lemma ids_include_without (ids : list string) (id : string) :
  ids_include (ids_without id ids) id = false.
Proof. apply ids_include_false, ids_without_purged. Qed.

Lemma ids_without_sublist (id : string) (ids : list string) :
  ids_without id ids `sublist_of` ids.
Proof.
  unfold ids_without. induction ids as [|x l IH]; cbn; [constructor|].
  destruct (negb _); [now apply sublist_skip | now apply sublist_cons].
Qed.

(** ** Locking *)

(** X21: after lockColumn(id, position) isColumnLocked(id) is position and
    id is in at most one of the two lock lists; after unlockColumn(id)
    isColumnLocked(id) is false; and when no id is locked on both sides,
    lockColumn and unlockColumn of any column keep it so. *)
Theorem lockColumn_exclusive (id : string) (position : LockPosition) (st : Service) :
  isColumnLocked id (lockColumn id position st) = Some position ∧
  ¬ (id ∈ locked_left (_lockedColumns (lockColumn id position st)) ∧
     id ∈ locked_right (_lockedColumns (lockColumn id position st))) ∧
  isColumnLocked id (unlockColumn id st) = None ∧
  (locksDisjoint st →
   ∀ other, locksDisjoint (lockColumn other position st) ∧
            locksDisjoint (unlockColumn other st)).
Proof.
  split; [|split; [|split]].
  - unfold isColumnLocked, lockColumn.
    destruct position;
      cbn [_lockedColumns set_lockedColumns locked_left locked_right].
    + now rewrite ids_include_snoc.
    + now rewrite ids_include_without, ids_include_snoc.
  - unfold lockColumn. destruct position; cbn; intros [Hl Hr].
    + now apply ids_without_purged in Hr.
    + now apply ids_without_purged in Hl.
  - unfold isColumnLocked, unlockColumn.
    cbn [_lockedColumns set_lockedColumns locked_left locked_right].
    now rewrite !ids_include_without.
  - intros Hdis other. split; intros x.
    + unfold lockColumn. destruct position; cbn;
        rewrite elem_of_app, !ids_without_spec, list_elem_of_singleton;
        intros [Hl Hr]; specialize (Hdis x); tauto.
    + unfold unlockColumn. cbn. rewrite !ids_without_spec.
      intros [Hl Hr]. specialize (Hdis x). tauto.
Qed.

(** ** Widths *)


(** ** Visibility *)

(** X23: isColumnVisible(id) is false after hideColumn(id), true after
    showColumn(id), and negated by toggleColumn(id); the visibility of the
    other columns is unchanged; no visible column has the id after
    hideColumn(id); and hideColumn and showColumn keep a duplicate-free
    hidden list duplicate-free. *)
Theorem column_visibility (id : string) (st : Service) :
  isColumnVisible id (hideColumn id st) = false ∧
  isColumnVisible id (showColumn id st) = true ∧
  isColumnVisible id (toggleColumn id st) = negb (isColumnVisible id st) ∧
  (∀ other, other ≠ id →
     isColumnVisible other (hideColumn id st) = isColumnVisible other st ∧
     isColumnVisible other (showColumn id st) = isColumnVisible other st) ∧
  (∀ c, c ∈ visibleColumns (hideColumn id st) → col_id c ≠ id) ∧
  (NoDup (_hiddenColumns st) →
   NoDup (_hiddenColumns (hideColumn id st)) ∧
   NoDup (_hiddenColumns (showColumn id st))).
Proof.
  assert (Hhide : isColumnVisible id (hideColumn id st) = false).
  { unfold isColumnVisible, hideColumn.
    destruct (ids_include (_hiddenColumns st) id) eqn:Ein; cbn [negb].
    - now rewrite Ein.
    - cbn [_hiddenColumns emit set_hiddenColumns]. now rewrite ids_include_snoc. }
  assert (Hshow : isColumnVisible id (showColumn id st) = true).
  { unfold isColumnVisible, showColumn. cbn [_hiddenColumns emit set_hiddenColumns].
    now rewrite ids_include_without. }
  assert (Hinc : ∀ l x, x ≠ id → ids_include (l ++ [id]) x = ids_include l x).
  { intros l x Hne. unfold ids_include. rewrite existsb_app. cbn.
    replace (String.eqb x id) with false by (symmetry; now apply String.eqb_neq).
    now rewrite !orb_false_r. }
  assert (Hwo : ∀ l x, x ≠ id → ids_include (ids_without id l) x = ids_include l x).
  { intros l x Hne. apply eq_true_iff_eq.
    rewrite !ids_include_spec, ids_without_spec. tauto. }
  split; [exact Hhide|]. split; [exact Hshow|]. split; [|split; [|split]].
  - unfold toggleColumn. destruct (ids_include (_hiddenColumns st) id) eqn:Ein.
    + rewrite Hshow. unfold isColumnVisible. rewrite Ein. reflexivity.
    + rewrite Hhide. unfold isColumnVisible. rewrite Ein. reflexivity.
  - intros other Hne. unfold isColumnVisible, hideColumn, showColumn. split.
    + destruct (negb (ids_include (_hiddenColumns st) id));
        cbn [_hiddenColumns emit set_hiddenColumns]; [|reflexivity].
      now rewrite Hinc.
    + cbn [_hiddenColumns emit set_hiddenColumns]. now rewrite Hwo.
  - intros c Hc Heq. unfold visibleColumns in Hc.
    apply list_elem_of_In, filter_In in Hc as [_ Hvis].
    apply andb_true_iff in Hvis as [Hvis _].
    fold (isColumnVisible (col_id c) (hideColumn id st)) in Hvis.
    rewrite Heq, Hhide in Hvis. discriminate.
  - intros Hnd. split.
    + unfold hideColumn. destruct (ids_include (_hiddenColumns st) id) eqn:Ein; cbn;
        [exact Hnd|].
      apply NoDup_app. repeat split; [exact Hnd | | apply NoDup_singleton].
      intros x Hx Hx'. apply list_elem_of_singleton in Hx'. subst x.
      apply ids_include_spec in Hx. congruence.
    + exact (sublist_NoDup _ _ Hnd (ids_without_sublist id _)).
Qed.


(** ** Reordering *)

Lemma emitReordered_order (oldOrder : list string) (k : nat)
    (newOrder : list string) (st : Service) :
  _columnOrder (emitReordered oldOrder k newOrder st) = _columnOrder st ∧
  _columns (emitReordered oldOrder k newOrder st) = _columns st.
Proof.
  revert k st. induction newOrder as [|x rest IH]; intros k st; cbn; [auto|].
  destruct (IH (S k) (if indexOf oldOrder x =? Z.of_nat k then st
                      else emit (ColumnReordered x (Z.of_nat k) (indexOf oldOrder x)) st))
    as [-> ->].
  destruct (_ =? _); auto.
Qed.

Lemma indexOf_first (pre tail : list string) (x : string) :
  x ∉ pre → indexOf (pre ++ x :: tail) x = Z.of_nat (length pre).
Proof.
  intros Hnotin. unfold indexOf.
  assert (Hfind : findIndex (λ y, String.eqb y x) (pre ++ x :: tail)
                  = Some (length pre)).
  { induction pre as [|y pre IH]; cbn.
    - now rewrite String.eqb_refl.
    - apply not_elem_of_cons in Hnotin as [Hne Hnotin].
      replace (String.eqb y x) with false
        by (symmetry; apply String.eqb_neq; congruence).
      now rewrite IH. }
  now rewrite Hfind.
Qed.

Lemma emitReordered_in_place (pre rest tail : list string) (st : Service) :
  NoDup (pre ++ rest) →
  emitReordered (pre ++ rest ++ tail) (length pre) rest st = st.
Proof.
  revert pre. induction rest as [|x rest IH]; intros pre Hnd; [reflexivity|].
  cbn [emitReordered].
  assert (Hx : x ∉ pre).
  { apply NoDup_app in Hnd as (_ & Hdis & _). intros Hin.
    apply (Hdis x Hin). left. }
  change (pre ++ (x :: rest) ++ tail) with (pre ++ x :: (rest ++ tail)).
  rewrite indexOf_first by exact Hx. rewrite Z.eqb_refl.
  assert (E : (pre ++ [x]) ++ rest ++ tail = pre ++ x :: rest ++ tail)
    by now rewrite <- app_assoc.
  rewrite <- E.
  replace (S (length pre)) with (length (pre ++ [x]))
    by (rewrite length_app; cbn; lia).
  apply IH. now rewrite <- app_assoc.
Qed.

(** X24: after reorderColumns(newOrder) the stored order holds exactly the
    ids of the existing columns; it is duplicate-free when the column ids
    and newOrder are; and when newOrder is duplicate-free and names only
    existing columns, it is the prefix of the stored order and no reorder
    event is emitted, because oldOrder is read after the new order has been
    set. *)
Theorem reorderColumns_order (newOrder : list string) (st : Service) :
  (∀ id, id ∈ _columnOrder (reorderColumns newOrder st)
         ↔ id ∈ col_id <$> _columns st) ∧
  (NoDup (col_id <$> _columns st) → NoDup newOrder →
   NoDup (_columnOrder (reorderColumns newOrder st))) ∧
  ((∀ id, id ∈ newOrder → id ∈ col_id <$> _columns st) → NoDup newOrder →
   take (length newOrder) (_columnOrder (reorderColumns newOrder st)) = newOrder ∧
   emitted (reorderColumns newOrder st) = emitted st).
Proof.
  unfold reorderColumns.
  set (existingIds := List.map col_id (_columns st)).
  set (validOrder := List.filter (λ id, ids_include existingIds id) newOrder).
  set (missingIds := List.filter (λ id, negb (ids_include validOrder id)) existingIds).
  change (col_id <$> _columns st) with existingIds.
  assert (Hvalid : ∀ id, id ∈ validOrder ↔ id ∈ newOrder ∧ id ∈ existingIds).
  { intros id. unfold validOrder.
    rewrite list_elem_of_In, filter_In, <- list_elem_of_In.
    now rewrite ids_include_spec. }
  assert (Hmissing : ∀ id, id ∈ missingIds ↔ id ∈ existingIds ∧ id ∉ validOrder).
  { intros id. unfold missingIds.
    rewrite list_elem_of_In, filter_In, <- list_elem_of_In.
    now rewrite negb_true_iff, ids_include_false. }
  rewrite (proj1 (emitReordered_order _ _ _ _)).
  cbn [_columnOrder set_columnOrder].
  split; [|split].
  - intros id. rewrite elem_of_app, Hvalid, Hmissing, Hvalid.
    destruct (decide (id ∈ newOrder)); tauto.
  - intros Hex Hnew. apply NoDup_app. repeat split.
    + exact (sublist_NoDup _ _ Hnew (filter_sublist _ _)).
    + intros id Hv Hm. apply Hmissing in Hm. tauto.
    + exact (sublist_NoDup _ _ Hex (filter_sublist _ _)).
  - intros Hall Hnew.
    assert (Hsame : validOrder = newOrder).
    { unfold validOrder. apply forallb_filter_id, forallb_forall.
      intros id Hid. apply ids_include_spec, Hall. now apply list_elem_of_In. }
    rewrite Hsame. split.
    + now rewrite take_app_length.
    + pose proof (emitReordered_in_place [] newOrder missingIds
                    (set_columnOrder (newOrder ++ missingIds) st) Hnew) as Hquiet.
      cbn [app length] in Hquiet. now rewrite Hquiet.
Qed.

(** X25: moveColumn(id, newIndex) changes nothing when id is not in the
    order or already at newIndex; the stored order is always a permutation
    of the old one; and when id is in the order at another index and
    newIndex is an index of the order, id stands at newIndex afterwards and
    one reorder event with the old index is emitted. *)
Theorem moveColumn_spec (columnId : string) (newIndex : Z) (st : Service) :
  (indexOf (_columnOrder st) columnId = -1 ∨
   indexOf (_columnOrder st) columnId = newIndex →
   moveColumn columnId newIndex st = st) ∧
  _columnOrder (moveColumn columnId newIndex st) ≡ₚ _columnOrder st ∧
  (columnId ∈ _columnOrder st →
   indexOf (_columnOrder st) columnId ≠ newIndex →
   0 <= newIndex < Z.of_nat (length (_columnOrder st)) →
   _columnOrder (moveColumn columnId newIndex st) !! Z.to_nat newIndex
     = Some columnId ∧
   emitted (moveColumn columnId newIndex st)
     = emitted st ++ [ColumnReordered columnId newIndex
                        (indexOf (_columnOrder st) columnId)]).
Proof.
  unfold moveColumn, indexOf.
  destruct (findIndex _ (_columnOrder st)) as [i|] eqn:Ei.
  - destruct (findIndex_Some _ _ _ Ei) as (x & Hx & Hpx & _).
    apply String.eqb_eq in Hpx. subst x.
    pose proof (lookup_lt_Some _ _ _ Hx) as Hlt.
    destruct (Z.eqb_spec (Z.of_nat i) newIndex) as [Heq|Hne].
    + split; [reflexivity|]. split; [reflexivity|]. intros _ Hc. congruence.
    + split; [intros [?|?]; lia|].
      cbn [_columnOrder emit set_columnOrder emitted].
      unfold splice_insert. rewrite length_delete by eauto.
      split.
      * rewrite <- Permutation_middle, take_drop.
        symmetry. now apply delete_Permutation.
      * intros _ _ Hrange. split; [|reflexivity].
        destruct (Z.ltb_spec newIndex 0); [lia|].
        rewrite Z.min_l by lia.
        rewrite lookup_app_r; rewrite length_take, length_delete by eauto;
          [|lia].
        replace (Z.to_nat newIndex - _)%nat with 0%nat by lia. reflexivity.
  - split; [reflexivity|]. split; [reflexivity|].
    intros Hin. exfalso. rewrite findIndex_None in Ei.
    specialize (Ei columnId Hin). now rewrite String.eqb_refl in Ei.
Qed.


(** ** The derived views *)

Lemma same_key_same_element {A B} (f : A → B) (l : list A) (x y : A) :
  NoDup (f <$> l) → x ∈ l → y ∈ l → f x = f y → x = y.
Proof.
  induction l as [|z l IH]; intros Hnd Hx Hy Hf; [inversion Hx|].
  cbn in Hnd. apply NoDup_cons in Hnd as [Hz Hnd].
  apply elem_of_cons in Hx as [-> | Hx]; apply elem_of_cons in Hy as [-> | Hy].
  - reflexivity.
  - exfalso. apply Hz. rewrite Hf. now apply list_elem_of_fmap_2.
  - exfalso. apply Hz. rewrite <- Hf. now apply list_elem_of_fmap_2.
  - now apply IH.
Qed.

Lemma three_way_split {A} (pl pr : A → bool) (l : list A) :
  (∀ x, x ∈ l → ¬ (pl x = true ∧ pr x = true)) →
  l ≡ₚ List.filter pl l
       ++ List.filter (λ x, negb (pl x) && negb (pr x)) l
       ++ List.filter pr l.
Proof.
  induction l as [|x l IH]; intros Hdis; [reflexivity|].
  assert (IH' := IH (λ y Hy, Hdis y (list_elem_of_further _ _ _ Hy))).
  specialize (Hdis x ltac:(left)).
  cbn [List.filter]. cbv beta.
  destruct (pl x) eqn:El, (pr x) eqn:Er; cbn [negb andb].
  - exfalso. now apply Hdis.
  - cbn [app]. now apply Permutation_cons.
  - rewrite app_assoc, <- Permutation_middle, <- app_assoc.
    now apply Permutation_cons.
  - match goal with
    | |- _ ≡ₚ ?fl ++ (x :: ?m) ++ ?r => change (x :: l ≡ₚ fl ++ x :: (m ++ r))
    end.
    rewrite <- Permutation_middle. now apply Permutation_cons.
Qed.

(** X26: when the column ids are pairwise distinct, orderedColumns holds
    exactly the columns of the service; when no id is locked on both sides,
    lockedLeftColumns, centerColumns and lockedRightColumns partition
    visibleColumns. *)
Theorem column_views (st : Service) :
  (NoDup (col_id <$> _columns st) →
   ∀ c, c ∈ orderedColumns st ↔ c ∈ _columns st) ∧
  (locksDisjoint st →
   visibleColumns st
   ≡ₚ lockedLeftColumns st ++ centerColumns st ++ lockedRightColumns st).
Proof.
  split.
  - intros Hnd c. split; [apply orderedColumns_known|].
    intros Hc. unfold orderedColumns.
    destruct (length (_columnOrder st) =? 0)%nat; [exact Hc|].
    apply elem_of_app.
    destruct (ids_include (_columnOrder st) (col_id c)) eqn:Ein.
    + left. apply list_elem_of_omap. exists (col_id c).
      split; [now apply ids_include_spec|].
      destruct (List.find _ (_columns st)) as [c'|] eqn:Efind.
      * apply find_some in Efind as [Hc' Heq]. apply String.eqb_eq in Heq.
        f_equal. apply (same_key_same_element col_id (_columns st));
          [exact Hnd | now apply list_elem_of_In | exact Hc | exact Heq].
      * exfalso. apply list_elem_of_In in Hc.
        apply (find_none _ _ Efind c) in Hc.
        now rewrite String.eqb_refl in Hc.
    + right. apply list_elem_of_In, filter_In.
      split; [now apply list_elem_of_In | now rewrite Ein].
  - intros Hdis. unfold lockedLeftColumns, centerColumns, lockedRightColumns.
    apply three_way_split. intros c _ [Hl Hr].
    apply ids_include_spec in Hl, Hr. now apply (Hdis (col_id c)).
Qed.

(** X27: every visible column appears in some bucket of
    getGroupedColumns; no bucket is empty; and a column of the bucket
    without a group is a child of no group. *)
Theorem getGroupedColumns_covers (st : Service) :
  (∀ c, c ∈ visibleColumns st →
        ∃ bucket, bucket ∈ getGroupedColumns st ∧ c ∈ bucket_columns bucket) ∧
  (∀ bucket, bucket ∈ getGroupedColumns st → bucket_columns bucket ≠ []) ∧
  (∀ bucket c g, bucket ∈ getGroupedColumns st → bucket_group bucket = None →
                 c ∈ bucket_columns bucket → g ∈ _columnGroups st →
                 col_id c ∉ children g).
Proof.
  unfold getGroupedColumns.
  set (columns := visibleColumns st).
  set (groups := _columnGroups st).
  set (bucketOf := λ group : ColumnGroup,
         let groupColumns :=
           List.filter (λ col, ids_include (children group) (col_id col)) columns in
         if (0 <? length groupColumns)%nat
         then Some {| bucket_group := Some group; bucket_columns := groupColumns |}
         else None).
  set (ungrouped := List.filter
         (λ col, negb (ids_include (List.flat_map children groups) (col_id col)))
         columns).
  assert (Hpos : ∀ {A} (l : list A), (0 <? length l)%nat = true ↔ l ≠ []).
  { intros A l. rewrite Nat.ltb_lt. destruct l; cbn; split; try lia; congruence. }
  assert (Hflat : ∀ id, id ∈ List.flat_map children groups
                        ↔ ∃ g, g ∈ groups ∧ id ∈ children g).
  { intros id. rewrite list_elem_of_In, in_flat_map.
    split; intros (g & Hg & Hid); exists g; split;
      try (now apply list_elem_of_In). }
  assert (Hin : ∀ b, b ∈ (if (0 <? length ungrouped)%nat
                          then omap bucketOf groups
                               ++ [{| bucket_group := None;
                                      bucket_columns := ungrouped |}]
                          else omap bucketOf groups)
                ↔ (∃ g, g ∈ groups ∧ bucketOf g = Some b) ∨
                  (ungrouped ≠ [] ∧
                   b = {| bucket_group := None; bucket_columns := ungrouped |})).
  { intros b. destruct (0 <? length ungrouped)%nat eqn:E.
    - apply Hpos in E.
      rewrite elem_of_app, list_elem_of_omap, list_elem_of_singleton. tauto.
    - rewrite list_elem_of_omap. split; [auto|]. intros [?|[Hne _]]; [auto|].
      apply Hpos in Hne. congruence. }
  split; [|split].
  - intros c Hc.
    destruct (ids_include (List.flat_map children groups) (col_id c)) eqn:Eg.
    + apply ids_include_spec, Hflat in Eg as (g & Hg & Hid).
      assert (Hcg : c ∈ List.filter (λ col, ids_include (children g) (col_id col))
                                    columns).
      { apply list_elem_of_In, filter_In.
        split; [now apply list_elem_of_In | now apply ids_include_spec]. }
      exists {| bucket_group := Some g;
                bucket_columns :=
                  List.filter (λ col, ids_include (children g) (col_id col)) columns |}.
      split; [|exact Hcg]. apply Hin. left. exists g. split; [exact Hg|].
      unfold bucketOf. cbv zeta.
      replace (0 <? length _)%nat with true; [reflexivity|].
      symmetry. apply Hpos. intros Hnil. rewrite Hnil in Hcg. inversion Hcg.
    + assert (Hcu : c ∈ ungrouped).
      { apply list_elem_of_In, filter_In.
        split; [now apply list_elem_of_In | now rewrite Eg]. }
      exists {| bucket_group := None; bucket_columns := ungrouped |}.
      split; [|exact Hcu]. apply Hin. right. split; [|reflexivity].
      intros Hnil. rewrite Hnil in Hcu. inversion Hcu.
  - intros b Hb. apply Hin in Hb as [(g & _ & Hb) | [Hne ->]]; [|exact Hne].
    unfold bucketOf in Hb. cbv zeta in Hb.
    match type of Hb with
    | (if ?test then _ else _) = _ => destruct test eqn:E; [|discriminate]
    end.
    injection Hb as <-. now apply Hpos in E.
  - intros b c g Hb Hnone Hc Hg Hchild.
    apply Hin in Hb as [(g' & _ & Hb) | [_ ->]].
    + unfold bucketOf in Hb. cbv zeta in Hb.
      match type of Hb with
      | (if ?test then _ else _) = _ => destruct test; [|discriminate]
      end.
      injection Hb as <-. discriminate Hnone.
    + cbn in Hc. apply list_elem_of_In, filter_In in Hc as [_ Hout].
      apply negb_true_iff, ids_include_false in Hout.
      apply Hout, Hflat. eauto.
Qed.

End ColumnOperations.

Section ColumnOperationExamples.
Import Js Columns.

Lemma grouped_layout_locks_disjoint : locksDisjoint grouped_layout.
Proof. intros x [_ Hr]. vm_compute in Hr. inversion Hr. Qed.

Lemma lockColumn_exclusive_witness :
  locksDisjoint grouped_layout ∧
  locksDisjoint (lockColumn "b" lock_right grouped_layout).
Proof.
  split; [exact grouped_layout_locks_disjoint|].
  exact (proj1 (proj2 (proj2 (proj2
    (lockColumn_exclusive "b" lock_right grouped_layout)))
    grouped_layout_locks_disjoint "b")).
Defined.


Lemma column_visibility_witness :
  NoDup (_hiddenColumns grouped_layout) ∧
  NoDup (_hiddenColumns (hideColumn "b" grouped_layout)).
Proof.
  assert (Hnd : NoDup (_hiddenColumns grouped_layout))
    by (vm_compute; apply NoDup_singleton).
  split; [exact Hnd|].
  exact (proj1 (proj2 (proj2 (proj2 (proj2 (proj2
    (column_visibility "b" grouped_layout))))) Hnd)).
Defined.

Lemma reorderColumns_order_witness :
  take 2 (_columnOrder (reorderColumns ["b"; "a"] grouped_layout)) = ["b"; "a"] ∧
  emitted (reorderColumns ["b"; "a"] grouped_layout) = emitted grouped_layout.
Proof.
  apply (proj2 (proj2 (reorderColumns_order ["b"; "a"] grouped_layout))).
  - intros id Hid. vm_compute.
    apply elem_of_cons in Hid as [->|Hid]; [right; left|].
    apply list_elem_of_singleton in Hid as ->. left.
  - apply NoDup_cons. split; [|apply NoDup_singleton].
    intros Hin. apply list_elem_of_singleton in Hin. discriminate.
Defined.

Lemma moveColumn_spec_witness :
  _columnOrder (moveColumn "a" 1 grouped_layout) !! 1%nat = Some "a" ∧
  emitted (moveColumn "a" 1 grouped_layout)
  = emitted grouped_layout ++ [ColumnReordered "a" 1 0].
Proof.
  apply (proj2 (proj2 (moveColumn_spec "a" 1 grouped_layout))).
  - vm_compute. left.
  - vm_compute. discriminate.
  - vm_compute. split; [discriminate | reflexivity].
Defined.

Lemma column_views_witness :
  visibleColumns grouped_layout
  ≡ₚ lockedLeftColumns grouped_layout ++ centerColumns grouped_layout
     ++ lockedRightColumns grouped_layout.
Proof.
  exact (proj2 (column_views grouped_layout) grouped_layout_locks_disjoint).
Defined.

Lemma getGroupedColumns_covers_witness :
  ∃ bucket, bucket ∈ getGroupedColumns grouped_layout ∧
            plainColumn "b" ∈ bucket_columns bucket.
Proof.
  apply (proj1 (getGroupedColumns_covers grouped_layout)).
  vm_compute. left.
Defined.

End ColumnOperationExamples.

(* ===================================================================== *)
(** * Further properties of the smart filters                             *)
(* ===================================================================== *)

Section SmartFilterOperations.
Import Js SmartFilter.
Context `{JsHost}.

Lemma sameKey_spec (c : string) (op : Operator) (f : AdvancedFilter) :
  sameKey c op f = true ↔ (columnId f, operator f) = (c, op).
Proof.
  unfold sameKey. rewrite andb_true_iff, String.eqb_eq, bool_decide_eq_true.
  split; [intros [-> ->]; reflexivity | intros [= -> ->]; auto].
Qed.

Lemma matchesKey_Some (c : string) (op : Operator) (f : AdvancedFilter) :
  matchesKey c (Some op) f = sameKey c op f.
Proof. reflexivity. Qed.

(** X28: the advanced filters are keyed by (columnId, operator): after
    addFilter(f), getFilter(f.columnId, f.operator) is f, the filter found
    under any other key is unchanged, keys that were pairwise distinct stay
    so, adding f a second time changes nothing; after
    removeFilter(f.columnId, f.operator) no filter is found under the key,
    and after removeFilter(f.columnId) the column has no filter. *)
Theorem addFilter_replaces (f : AdvancedFilter) (st : Service) :
  getFilter (columnId f) (Some (operator f)) (addFilter f st) = Some f ∧
  (∀ c op, (c, op) ≠ (columnId f, operator f) →
     getFilter c (Some op) (addFilter f st) = getFilter c (Some op) st) ∧
  (NoDup (filterKeys st) → NoDup (filterKeys (addFilter f st))) ∧
  addFilter f (addFilter f st) = addFilter f st ∧
  getFilter (columnId f) (Some (operator f))
            (removeFilter (columnId f) (Some (operator f)) (addFilter f st)) = None ∧
  getFiltersForColumn (columnId f) (removeFilter (columnId f) None (addFilter f st))
    = [].
Proof.
  assert (Hf : sameKey (columnId f) (operator f) f = true) by now apply sameKey_spec.
  unfold getFilter, addFilter, filterKeys.
  repeat match goal with
  | |- context [matchesKey ?c (Some ?o)] =>
      change (matchesKey c (Some o)) with (sameKey c o)
  end.
  split; [|split; [|split; [|split; [|split]]]].
  - destruct (findIndex _ (_advancedFilters st)) as [i|] eqn:Ei; cbn.
    + now apply find_insert_same.
    + now apply find_snoc_new.
  - intros c op Hne.
    assert (Hother : sameKey c op f = false).
    { apply not_true_iff_false. rewrite sameKey_spec. congruence. }
    destruct (findIndex _ (_advancedFilters st)) as [i|] eqn:Ei; cbn.
    + destruct (findIndex_Some _ _ _ Ei) as (x & Hx & Hpx & _).
      apply (find_insert_other _ _ i f x Hx); [|exact Hother].
      apply not_true_iff_false. change (sameKey c op x ≠ true).
      rewrite sameKey_spec. apply sameKey_spec in Hpx. congruence.
    + now apply find_snoc_other.
  - intros Hnd.
    destruct (findIndex _ (_advancedFilters st)) as [i|] eqn:Ei; cbn.
    + destruct (findIndex_Some _ _ _ Ei) as (x & Hx & Hpx & _).
      apply sameKey_spec in Hpx.
      rewrite list_fmap_insert, list_insert_id; [exact Hnd|].
      rewrite list_lookup_fmap, Hx. cbn. now rewrite Hpx.
    + rewrite fmap_app. apply NoDup_app.
      repeat split; [exact Hnd | | apply NoDup_singleton].
      intros k Hk Hk'. apply list_elem_of_singleton in Hk'. subst k.
      apply list_elem_of_fmap in Hk as (x & Hkey & Hx).
      rewrite findIndex_None in Ei. specialize (Ei x Hx).
      apply not_true_iff_false in Ei. apply Ei, sameKey_spec. congruence.
  - destruct (findIndex _ (_advancedFilters st)) as [i|] eqn:Ei; cbn.
    + rewrite (findIndex_insert _ _ i f Ei Hf). cbn.
      unfold set_advancedFilters. cbn. now rewrite list_insert_insert_eq.
    + rewrite (findIndex_snoc _ _ f Ei Hf). cbn.
      unfold set_advancedFilters. cbn.
      rewrite insert_app_r_alt by lia. now rewrite Nat.sub_diag.
  - unfold removeFilter. cbn [_advancedFilters set_advancedFilters].
    destruct (List.find _ _) as [x|] eqn:Efind; [exfalso | reflexivity].
    apply find_some in Efind as [Hin Hx].
    apply filter_In in Hin as [_ Hnot]. rewrite matchesKey_Some in Hnot.
    rewrite Hx in Hnot. discriminate.
  - unfold getFiltersForColumn, removeFilter.
    fold (addFilter f st). cbn [_advancedFilters set_advancedFilters].
    generalize (_advancedFilters (addFilter f st)). clear.
    intros l. induction l as [|x l IH]; [reflexivity|].
    cbn [List.filter]. unfold matchesKey at 1. rewrite andb_true_r.
    destruct (String.eqb (columnId x) (columnId f)) eqn:Ex; cbn [negb]; [exact IH|].
    cbn [List.filter]. now rewrite Ex.
Qed.

Lemma evaluateAdvancedFilters_and_snoc (row : gmap string FieldValue)
    (filters : list AdvancedFilter) (f : AdvancedFilter) :
  isAndFilter f = true →
  evaluateAdvancedFilters row (filters ++ [f])
  = evaluateAdvancedFilters row filters && evaluateFilter row f.
Proof.
  intros Hand.
  assert (Hnotor : isOrFilter f = false).
  { unfold isAndFilter in Hand. unfold isOrFilter.
    destruct (condition f) as [[|]|]; congruence. }
  unfold evaluateAdvancedFilters.
  replace (length (filters ++ [f]) =? 0)%nat with false
    by (rewrite length_app; cbn; symmetry; apply Nat.eqb_neq; lia).
  rewrite !List.filter_app. cbn [List.filter]. rewrite Hand, Hnotor.
  rewrite app_nil_r, forallb_app. cbn [forallb]. rewrite andb_true_r.
  destruct filters as [|g gs]; cbn [length Nat.eqb].
  - cbn. now rewrite andb_true_r.
  - set (a := forallb _ _). set (o := _ || _). destruct a, o, (evaluateFilter row f);
      reflexivity.
Qed.

(** X29: adding a filter whose condition is absent or 'and', under a key
    not yet present, narrows the result: applyFilters returns the rows of
    the previous result that pass the new filter, a subsequence of it; after
    clearAllFilters applyFilters returns the data unchanged. *)
Theorem and_filter_narrows (f : AdvancedFilter) (st : Service)
    (data : list (gmap string FieldValue)) (columns : list string) :
  isAndFilter f = true →
  getFilter (columnId f) (Some (operator f)) st = None →
  applyFilters data columns (addFilter f st)
  = List.filter (λ row, evaluateFilter row f) (applyFilters data columns st) ∧
  applyFilters data columns (addFilter f st) `sublist_of` applyFilters data columns st ∧
  applyFilters data columns (clearAllFilters st) = data.
Proof.
  intros Hand Hfresh.
  assert (Hadd : addFilter f st = set_advancedFilters (_advancedFilters st ++ [f]) st).
  { unfold addFilter. unfold getFilter in Hfresh.
    destruct (findIndex _ (_advancedFilters st)) as [i|] eqn:Ei; [|reflexivity].
    destruct (findIndex_Some _ _ _ Ei) as (x & _ & _ & Hfind & _).
    change (List.find (sameKey (columnId f) (operator f)) (_advancedFilters st) = None)
      in Hfresh. congruence. }
  assert (Hmain : applyFilters data columns (addFilter f st)
                  = List.filter (λ row, evaluateFilter row f)
                                (applyFilters data columns st)).
  { rewrite Hadd. unfold applyFilters.
    cbn [_advancedFilters _globalSearch _globalSearchConfig set_advancedFilters].
    replace (length (_advancedFilters st ++ [f]) =? 0)%nat with false
      by (rewrite length_app; cbn; symmetry; apply Nat.eqb_neq; lia).
    cbn [andb].
    destruct ((length (_advancedFilters st) =? 0)%nat
              && String.eqb (_globalSearch st) "") eqn:Enone.
    - apply andb_true_iff in Enone as [Hlen Hsearch].
      apply Nat.eqb_eq, length_zero_iff_nil in Hlen. rewrite Hlen, Hsearch.
      apply filter_ext. intros row.
      rewrite (evaluateAdvancedFilters_and_snoc row [] f Hand). cbn.
      now rewrite andb_true_r.
    - induction data as [|row data IH]; [reflexivity|].
      cbn [List.filter]. rewrite evaluateAdvancedFilters_and_snoc by exact Hand.
      destruct (evaluateAdvancedFilters row (_advancedFilters st)),
        (evaluateFilter row f) eqn:Ef,
        (String.eqb (_globalSearch st) "" || _);
        cbn [andb List.filter]; rewrite ?Ef; try (f_equal; exact IH); exact IH. }
  split; [exact Hmain|]. split; [rewrite Hmain; apply filter_sublist|].
  reflexivity.
Qed.

(** X30: on every row 'isNotEmpty' is the negation of 'isEmpty'; on a cell
    that is neither null nor undefined 'notIn' is the negation of 'in'; on a
    null or undefined cell a filter passes exactly when its operator is
    'isEmpty'; and 'greaterThan' and 'lessThan' with the same value never
    both pass. *)
Theorem operator_complements (row : gmap string FieldValue) (f : AdvancedFilter) :
  let cell := getFieldValue row (columnId f) in
  evaluateFilter row (withOperator isNotEmpty f)
    = negb (evaluateFilter row (withOperator isEmpty f)) ∧
  (fieldNullish cell = false →
     evaluateFilter row (withOperator notIn f)
     = negb (evaluateFilter row (withOperator in_ f))) ∧
  (fieldNullish cell = true →
     (evaluateFilter row f = true ↔ operator f = isEmpty)) ∧
  evaluateFilter row (withOperator greaterThan f)
    && evaluateFilter row (withOperator lessThan f) = false.
Proof.
  intros cell. unfold evaluateFilter, withOperator.
  cbn [columnId operator value value2 caseSensitive condition]. cbv zeta.
  fold cell. split; [|split; [|split]].
  - rewrite andb_false_r. now rewrite !negb_orb.
  - intros ->. cbn [andb]. destruct (value f); reflexivity.
  - intros ->. destruct (operator f); cbn; split; congruence.
  - destruct (fieldNullish cell); [reflexivity|]. cbn [andb].
    unfold compareNumeric.
    destruct (fieldToNumber cell) as [x|], (fieldToNumber (value f)) as [y|];
      cbn; try reflexivity.
    destruct (y <? x) eqn:E1, (x <? y) eqn:E2; try reflexivity. lia.
Qed.

End SmartFilterOperations.

Section SmartFilterOperationExamples.
Import Js SmartFilter.
#[local] Existing Instance sampleHost.

Lemma addFilter_replaces_witness :
  NoDup (filterKeys (addFilter (ageFilter lessThan 65 None) adults_only)).
Proof.
  apply (addFilter_replaces (ageFilter lessThan 65 None) adults_only).
  vm_compute. apply NoDup_singleton.
Defined.

Lemma and_filter_narrows_witness :
  applyFilters [person "Ann" 30; person "Bob" 70; person "Cy" 12] ["name"; "age"]
    (addFilter (ageFilter lessThan 65 None) adults_only)
  = List.filter (λ row, evaluateFilter row (ageFilter lessThan 65 None))
      (applyFilters [person "Ann" 30; person "Bob" 70; person "Cy" 12]
         ["name"; "age"] adults_only).
Proof.
  exact (proj1 (and_filter_narrows (ageFilter lessThan 65 None) adults_only
                  [person "Ann" 30; person "Bob" 70; person "Cy" 12]
                  ["name"; "age"] eq_refl eq_refl)).
Defined.

Lemma operator_complements_witness :
  fieldNullish (getFieldValue (person "Ann" 30) "age") = false ∧
  evaluateFilter (person "Ann" 30) (withOperator notIn (ageFilter equals 30 None))
  = negb (evaluateFilter (person "Ann" 30)
            (withOperator in_ (ageFilter equals 30 None))).
Proof.
  split; [reflexivity|].
  exact (proj1 (proj2
    (operator_complements (person "Ann" 30) (ageFilter equals 30 None))) eq_refl).
Defined.

End SmartFilterOperationExamples.
